(** * TinySynth: oscillators, phase accumulator and patch-graph engine

    A shallow embedding of the C++ audio engine of the repository
    (tinysynth): the [Phasor] phase accumulator, the [Oscillator] base class
    with its scalar per-sample loop and PolyBLEP correction, the
    [GainModule] node and the [ModularSystem] patch graph.

    Conventions of the embedding.
    - The C++ code is templated on [sample_type]; the embedding is generic
      in the same way, through the class [SampleOps] of the arithmetic the
      code applies to samples.  Statements that only depend on the control
      flow are proved for every instance.  Statements that need the laws of
      arithmetic are proved for the instance on exact rationals [Q], which
      reads every floating-point operation as the exact operation (no
      rounding, no NaN or infinity; those statements assume the divisors
      they meet, sample rate, [dt] and period, to be positive).
    - A call either returns, throws a C++ exception, trips an [assert], or
      has undefined behaviour (an access outside a vector, a read through
      a [__restrict] pointer of what its partner writes, a loop that does
      not end).  The four cases are the constructors of [Outcome].
    - [unsigned int] counters and indices are natural numbers.  The one
      embedded loop whose test can wrap in 32 bits, that of
      [SIMDOperations::multiply], carries its bound in the definition.
    - The oscillators of Oscillator.h are embedded along their scalar path,
      the code of a build without AVX and SSE; their AVX and SSE loops are
      not embedded, and the statements about [Oscillator.process] speak of
      the scalar path only. *)

From Stdlib Require Import ZArith QArith Qround Lqa Lia Permutation.
From stdpp Require Import base list strings.

Local Open Scope string_scope.
Local Open Scope list_scope.

(** ** Outcomes of a call *)

(** The exception classes the sources throw. *)
Inductive Exception : Type :=
| runtime_error (what : string)
| invalid_argument (what : string)
| out_of_range (what : string).

Inductive Outcome (A : Type) : Type :=
| Ok (a : A)
| Throw (e : Exception)
| Abort
| Undefined.
Arguments Ok {A} a.
Arguments Throw {A} e.
Arguments Abort {A}.
Arguments Undefined {A}.

#[global] Instance Outcome_ret : MRet Outcome := fun _ a => Ok a.
#[global] Instance Outcome_bind : MBind Outcome := fun _ _ f m =>
  match m with
  | Ok a => f a
  | Throw e => Throw e
  | Abort => Abort
  | Undefined => Undefined
  end.
#[global] Instance Outcome_fmap : FMap Outcome := fun _ _ f m =>
  a ← m; Ok (f a).

(** ** Arithmetic on samples *)

Class SampleOps (T : Type) : Type := {
  of_Z : Z -> T;              (* integer-valued literals, e.g. [440.0], [10.0F] *)
  piConstant : T;             (* [Constants<T>::piConstant] *)
  fadd : T -> T -> T;
  fsub : T -> T -> T;
  fmul : T -> T -> T;
  fdiv : T -> T -> T;
  flt : T -> T -> bool;       (* [operator<] *)
  fle : T -> T -> bool;       (* [operator<=] *)
  fmod : T -> T -> T          (* [std::fmod] *)
}.

Declare Scope sample_scope.
Delimit Scope sample_scope with S.
Infix "+" := fadd : sample_scope.
Infix "-" := fsub : sample_scope.
Infix "*" := fmul : sample_scope.
Infix "/" := fdiv : sample_scope.
Notation "x <? y" := (flt x y) : sample_scope.
Notation "x >? y" := (flt y x) : sample_scope.
Notation "x >=? y" := (fle y x) : sample_scope.

(** [Constants<T>::twoPiConstant = static_cast<T>(2.0) * piConstant]. *)
Definition twoPiConstant {T} `{SampleOps T} : T := (of_Z 2 * piConstant)%S.

(** [std::clamp(v, lo, hi)]: [(v < lo) ? lo : (hi < v) ? hi : v]. *)
Definition clamp {T} `{SampleOps T} (v lo hi : T) : T :=
  if (v <? lo)%S then lo else if (hi <? v)%S then hi else v.

(** *** The instance on exact rationals *)

Definition Qltb (x y : Q) : bool := negb (Qle_bool y x).

(** Rounding toward zero, as [std::fmod] uses for the quotient. *)
Definition Qtrunc (x : Q) : Z :=
  if Qle_bool 0 x then Qfloor x else Qceiling x.

(** [std::fmod(x, y) = x - trunc(x / y) * y]. *)
Definition Qfmod (x y : Q) : Q := (x - inject_Z (Qtrunc (x / y)) * y)%Q.

(** The source writes pi as the decimal literal [3.14159265358979323846]. *)
Definition Qpi : Q := (314159265358979323846 # 100000000000000000000)%Q.

#[global] Instance Q_SampleOps : SampleOps Q := {|
  of_Z := inject_Z;
  piConstant := Qpi;
  fadd := Qplus;
  fsub := Qminus;
  fmul := Qmult;
  fdiv := Qdiv;
  flt := Qltb;
  fle := Qle_bool;
  fmod := Qfmod
|}.

(** [static_cast] between the sample type and the accumulator type. *)
Class StaticCast (A B : Type) : Type := static_cast : A -> B.
#[global] Instance StaticCast_id (A : Type) : StaticCast A A := fun a => a.

(** ** Buffers *)

(** [p[k] = v] through a pointer [p] to the first element of a vector of
    [length buf] elements; a write past the end is undefined behaviour. *)
Definition store_at {T} (buf : list T) (k : nat) (v : T) : Outcome (list T) :=
  if decide (k < length buf)%nat then Ok (<[k := v]> buf) else Undefined.

(** [p[k]] read through such a pointer. *)
Definition load_at {T} (buf : list T) (k : nat) : Outcome T :=
  match buf !! k with
  | Some v => Ok v
  | None => Undefined
  end.

(** ** Phasor (Phasor.h) *)

Module Phasor.
Section Phasor.
Context {sample_type internal_type : Type}.
Context `{SampleOps internal_type}.
Context `{StaticCast internal_type sample_type}.
Context `{StaticCast sample_type internal_type}.
(** The template argument [wrap_arg]. *)
Variable wrap_arg : nat.

Record t : Type := mk {
  phase_ : internal_type;
  phase_inc_ : internal_type;
  freq_factor : internal_type
}.

(** [Phasor()]. *)
Definition init : t :=
  {| phase_ := of_Z 0; phase_inc_ := of_Z 0; freq_factor := of_Z 0 |}.

(** [wrap()]: [internal_type(wrap_arg)]. *)
Definition wrap : internal_type := of_Z (Z.of_nat wrap_arg).

(** [detail::phasorComputeSample]: the new phase and the sample returned. *)
Definition phasorComputeSample (phase phase_inc wrap : internal_type)
  : internal_type * sample_type :=
  let phase := (phase + phase_inc)%S in
  let phase := fmod phase wrap in
  (phase, static_cast phase).

(** [computeSample]. *)
Definition computeSample (phase phase_inc : internal_type)
  : internal_type * sample_type :=
  phasorComputeSample phase phase_inc wrap.

(** [detail::phasorPerform<n>(out, phase, phase_inc, wrap)]: the template
    recursion on [n]; [k] is the offset of [out] in the buffer. *)
Fixpoint phasorPerform (n : nat) (out : list sample_type) (k : nat)
    (phase phase_inc wrap : internal_type)
  : Outcome (internal_type * list sample_type) :=
  match n with
  | O => Ok (phase, out)
  | S n' =>
      let '(phase, s) := phasorComputeSample phase phase_inc wrap in
      out ← store_at out k s;
      phasorPerform n' out (S k) phase phase_inc wrap
  end.

(** [detail::phasorPerform<n>(in, out, phase, freq_factor, wrap)]. *)
Fixpoint phasorPerformIn (n : nat) (inb out : list sample_type) (k : nat)
    (phase freq_factor wrap : internal_type)
  : Outcome (internal_type * list sample_type) :=
  match n with
  | O => Ok (phase, out)
  | S n' =>
      x ← load_at inb k;
      let phase_inc := (static_cast x * freq_factor)%S in
      let '(phase, s) := phasorComputeSample phase phase_inc wrap in
      out ← store_at out k s;
      phasorPerformIn n' inb out (S k) phase freq_factor wrap
  end.

(** The [while (n > 0)] loop of [perform(out, n)]. *)
Fixpoint perform_loop (n : nat) (out : list sample_type) (k : nat)
    (phase phase_inc : internal_type)
  : Outcome (internal_type * list sample_type) :=
  match n with
  | O => Ok (phase, out)
  | S n' =>
      let '(phase, s) := computeSample phase phase_inc in
      out ← store_at out k s;
      perform_loop n' out (S k) phase phase_inc
  end.

Definition set_phase (p : t) (phase : internal_type) : t :=
  {| phase_ := phase; phase_inc_ := phase_inc_ p; freq_factor := freq_factor p |}.

(** [perform(out, n)]: the per-sample scalar mode. *)
Definition perform (p : t) (out : list sample_type) (n : nat)
  : Outcome (t * list sample_type) :=
  '(phase, out) ← perform_loop n out 0 (phase_ p) (phase_inc_ p);
  Ok (set_phase p phase, out).

(** The [while (n > 0)] loop of [perform8(out, n)], after [n /= 8]. *)
Fixpoint perform8_loop (n : nat) (out : list sample_type) (k : nat)
    (phase phase_inc : internal_type)
  : Outcome (internal_type * list sample_type) :=
  match n with
  | O => Ok (phase, out)
  | S n' =>
      '(phase, out) ← phasorPerform 8 out k phase phase_inc wrap;
      perform8_loop n' out (k + 8) phase phase_inc
  end.

(** [perform8(out, n)]: the unrolled batch mode. *)
Definition perform8 (p : t) (out : list sample_type) (n : nat)
  : Outcome (t * list sample_type) :=
  let n := (n / 8)%nat in
  '(phase, out) ← perform8_loop n out 0 (phase_ p) (phase_inc_ p);
  Ok (set_phase p phase, out).

(** The loop of [perform(in, out, n)]. *)
Fixpoint performIn_loop (n : nat) (inb out : list sample_type) (k : nat)
    (phase freq_factor : internal_type)
  : Outcome (internal_type * list sample_type) :=
  match n with
  | O => Ok (phase, out)
  | S n' =>
      x ← load_at inb k;
      let phase_inc := (static_cast x * freq_factor)%S in
      let '(phase, s) := computeSample phase phase_inc in
      out ← store_at out k s;
      performIn_loop n' inb out (S k) phase freq_factor
  end.

(** [perform(in, out, n)]. *)
Definition performIn (p : t) (inb out : list sample_type) (n : nat)
  : Outcome (t * list sample_type) :=
  '(phase, out) ← performIn_loop n inb out 0 (phase_ p) (freq_factor p);
  Ok (set_phase p phase, out).

(** The loop of [perform8(in, out, n)], after [n /= 8]. *)
Fixpoint perform8In_loop (n : nat) (inb out : list sample_type) (k : nat)
    (phase freq_factor : internal_type)
  : Outcome (internal_type * list sample_type) :=
  match n with
  | O => Ok (phase, out)
  | S n' =>
      '(phase, out) ← phasorPerformIn 8 inb out k phase freq_factor wrap;
      perform8In_loop n' inb out (k + 8) phase freq_factor
  end.

(** [perform8(in, out, n)]. *)
Definition perform8In (p : t) (inb out : list sample_type) (n : nat)
  : Outcome (t * list sample_type) :=
  let n := (n / 8)%nat in
  '(phase, out) ← perform8In_loop n inb out 0 (phase_ p) (freq_factor p);
  Ok (set_phase p phase, out).

(** [setFrequency], [setPhase], [setInvSamplerate]. *)
Definition setFrequency (p : t) (new_frequency : internal_type) : t :=
  {| phase_ := phase_ p; phase_inc_ := (new_frequency * wrap)%S;
     freq_factor := freq_factor p |}.
Definition setPhase (p : t) (new_phase : internal_type) : t :=
  set_phase p new_phase.
Definition setInvSamplerate (p : t) (inv_samplerate : internal_type) : t :=
  {| phase_ := phase_ p; phase_inc_ := phase_inc_ p;
     freq_factor := (inv_samplerate * wrap)%S |}.

(** The phase reached and the samples returned by [n] successive calls of
    [computeSample] with the same increment. *)
Fixpoint trajectory (n : nat) (phase phase_inc : internal_type)
  : internal_type * list sample_type :=
  match n with
  | O => (phase, [])
  | S n' =>
      let '(phase, s) := computeSample phase phase_inc in
      let '(phase, rest) := trajectory n' phase phase_inc in
      (phase, s :: rest)
  end.

(** [perform<n>(out)]: the fixed-size mode, one call of the template
    recursion. *)
Definition performFixed (n : nat) (p : t) (out : list sample_type)
  : Outcome (t * list sample_type) :=
  '(phase, out) ← phasorPerform n out 0 (phase_ p) (phase_inc_ p) wrap;
  Ok (set_phase p phase, out).

(** [perform<n>(in, out)]. *)
Definition performFixedIn (n : nat) (p : t) (inb out : list sample_type)
  : Outcome (t * list sample_type) :=
  '(phase, out) ← phasorPerformIn n inb out 0 (phase_ p) (freq_factor p) wrap;
  Ok (set_phase p phase, out).
End Phasor.
End Phasor.

(** ** The audio buffers of the engine *)

(** [m_audioBuffers]: one vector of samples per module.  A [sample_type*]
    handed to a module is the [data()] of one of these vectors, so a pointer
    is the index of its vector; two equal pointers alias. *)
Abbreviation ptr := nat (only parsing).
Abbreviation Store T := (list (list T)).

(** [p[i]] and [p[i] = v] for a buffer pointer [p]. *)
Definition load {T} (st : Store T) (p : ptr) (i : nat) : Outcome T :=
  match st !! p with
  | Some buf => load_at buf i
  | None => Undefined
  end.

Definition store {T} (st : Store T) (p : ptr) (i : nat) (v : T)
  : Outcome (Store T) :=
  match st !! p with
  | Some buf => buf ← store_at buf i v; Ok (<[p := buf]> st)
  | None => Undefined
  end.

(** ** Oscillator (Oscillator.h) *)

Module Oscillator.
Section Oscillator.
Context {sample_type : Type} `{SampleOps sample_type}.
(** Whether [NDEBUG] is defined, i.e. [assert] expands to nothing. *)
Variable ndebug : bool.

Record t : Type := mk {
  m_frequency : sample_type;
  m_amplitude : sample_type;
  m_phase : sample_type
}.

(** The default member initialisers. *)
Definition init : t :=
  {| m_frequency := of_Z 440; m_amplitude := of_Z 1; m_phase := of_Z 0 |}.

(** [assert(c)]: aborts the program when [c] is false, unless [NDEBUG]. *)
Definition assert (c : bool) : Outcome unit :=
  if ndebug then Ok tt else if c then Ok tt else Abort.

Definition getFrequency (o : t) : sample_type := m_frequency o.
Definition getAmplitude (o : t) : sample_type := m_amplitude o.
Definition getPhase (o : t) : sample_type := m_phase o.

Definition setFrequency (o : t) (frequency : sample_type) : Outcome t :=
  _ ← assert (frequency >? of_Z 0)%S;
  Ok {| m_frequency := frequency; m_amplitude := m_amplitude o;
        m_phase := m_phase o |}.

Definition setAmplitude (o : t) (amplitude : sample_type) : Outcome t :=
  _ ← assert (amplitude >=? of_Z 0)%S;
  Ok {| m_frequency := m_frequency o; m_amplitude := amplitude;
        m_phase := m_phase o |}.

Definition setPhase (o : t) (phase : sample_type) : t :=
  {| m_frequency := m_frequency o; m_amplitude := m_amplitude o;
     m_phase := phase |}.

Definition setParameter (o : t) (name : string) (value : sample_type)
  : Outcome t :=
  if String.eqb name "frequency" then setFrequency o value
  else if String.eqb name "amplitude" then setAmplitude o value
  else if String.eqb name "phase" then Ok (setPhase o value)
  else Throw (invalid_argument ("Unknown parameter: " ++ name)).

Definition getParameter (o : t) (name : string) : Outcome sample_type :=
  if String.eqb name "frequency" then Ok (getFrequency o)
  else if String.eqb name "amplitude" then Ok (getAmplitude o)
  else if String.eqb name "phase" then Ok (getPhase o)
  else Throw (invalid_argument ("Unknown parameter: " ++ name)).

Definition getParameterNames : list string :=
  ["frequency"; "amplitude"; "phase"].

Definition getInputName (index : nat) : string :=
  match index with
  | 0%nat => "Frequency Modulation"
  | 1%nat => "Amplitude Modulation"
  | _ => ""
  end.

Definition getOutputName (index : nat) : string :=
  if decide (index = 0%nat) then "output" else "".

Definition getNumInputs : nat := 2.
Definition getNumOutputs : nat := 1.

(** [reset()]: [m_phase = 0]. *)
Definition reset (o : t) : t :=
  {| m_frequency := m_frequency o; m_amplitude := m_amplitude o;
     m_phase := of_Z 0 |}.

(** [polyBlep(time, deltaTime)], the PolyBLEP anti-aliasing function. *)
Definition polyBlep (time deltaTime : sample_type) : sample_type :=
  if (time <? deltaTime)%S then
    let time := (time / deltaTime)%S in
    (time + time - time * time - of_Z 1)%S
  else if (time >? of_Z 1 - deltaTime)%S then
    let time := ((time - of_Z 1) / deltaTime)%S in
    (time * time + time + time + of_Z 1)%S
  else of_Z 0.

(** [wrapPhaseScalar(phase)]. *)
Definition wrapPhaseScalar (phase : sample_type) : sample_type :=
  if (phase >=? twoPiConstant)%S then (phase - twoPiConstant)%S else phase.

(** [applyModulationScalar(freq, amp, freqMod, ampMod, index)]; the
    modulation inputs are optional buffer pointers. *)
Definition applyModulationScalar (st : Store sample_type)
    (freq amp : sample_type) (freqMod ampMod : option ptr) (index : nat)
  : Outcome (sample_type * sample_type) :=
  freq ← match freqMod with
         | Some p => x ← load st p index; Ok (freq + x)%S
         | None => Ok freq
         end;
  amp ← match ampMod with
        | Some p => x ← load st p index; Ok (amp * x)%S
        | None => Ok amp
        end;
  Ok (freq, amp).

(** The phase update of one sample:
    [phase += currentFrequency * twoPiConstant / sampleRate;
     wrapPhaseScalar(phase)]. *)
Definition advancePhase (phase currentFrequency sampleRate : sample_type)
  : sample_type :=
  wrapPhaseScalar (phase + currentFrequency * twoPiConstant / sampleRate)%S.

(** The body of the loop of [processScalar] and [processRemainingScalar]
    for sample [i]; [wave phase] is the waveform of the subclass. *)
Definition scalarStep (wave : sample_type -> sample_type)
    (st : Store sample_type) (output : ptr) (freqMod ampMod : option ptr)
    (phase baseFrequency baseAmplitude sampleRate : sample_type) (i : nat)
  : Outcome (Store sample_type * sample_type) :=
  '(currentFrequency, currentAmplitude) ←
    applyModulationScalar st baseFrequency baseAmplitude freqMod ampMod i;
  st ← store st output i (currentAmplitude * wave phase)%S;
  Ok (st, advancePhase phase currentFrequency sampleRate).

(** [processRemainingScalar(..., start, numFrames)]: [count] iterations
    from index [start]. *)
Fixpoint scalarLoop (wave : sample_type -> sample_type) (count : nat)
    (st : Store sample_type) (output : ptr) (freqMod ampMod : option ptr)
    (phase baseFrequency baseAmplitude sampleRate : sample_type) (i : nat)
  : Outcome (Store sample_type * sample_type) :=
  match count with
  | O => Ok (st, phase)
  | S count' =>
      '(st, phase) ← scalarStep wave st output freqMod ampMod phase
                       baseFrequency baseAmplitude sampleRate i;
      scalarLoop wave count' st output freqMod ampMod phase
        baseFrequency baseAmplitude sampleRate (S i)
  end.

(** [processScalar(..., numFrames)]. *)
Definition processScalar (wave : sample_type -> sample_type)
    (st : Store sample_type) (output : ptr) (freqMod ampMod : option ptr)
    (phase baseFrequency baseAmplitude sampleRate : sample_type)
    (numFrames : nat)
  : Outcome (Store sample_type * sample_type) :=
  scalarLoop wave numFrames st output freqMod ampMod phase
    baseFrequency baseAmplitude sampleRate 0.

(** [process(inputs, outputs, numFrames)] along the scalar path: the
    [#else] branch, which calls [processScalar] and is the one compiled
    when neither [__AVX__] nor [__SSE__] is defined.  The AVX and SSE
    branches are other code (one phase for all lanes of a group, a loop
    bound [numFrames - 7] or [numFrames - 3]) and are not part of this
    definition.  [sampleRate] is the value of
    [AudioEngine::getSampleRate()]. *)
Definition process (wave : sample_type -> sample_type) (sampleRate : N)
    (o : t) (inputs : list (option ptr)) (outputs : list ptr)
    (numFrames : nat) (st : Store sample_type)
  : Outcome (t * Store sample_type) :=
  match outputs with
  | [] => Ok (o, st)
  | output :: _ =>
      if decide (numFrames = 0%nat) then Ok (o, st) else
      let freqMod := default None (inputs !! 0%nat) in
      let ampMod := default None (inputs !! 1%nat) in
      '(st, phase) ← processScalar wave st output freqMod ampMod
                       (getPhase o) (getFrequency o) (getAmplitude o)
                       (of_Z (Z.of_N sampleRate)) numFrames;
      Ok (setPhase o phase, st)
  end.

(** The waveforms of [SawOsc], [TriangleOsc] and [PulseOsc] as functions
    of the phase. *)
Definition sawWave (phase : sample_type) : sample_type :=
  (phase / piConstant - of_Z 1)%S.
Definition triangleWave (phase : sample_type) : sample_type :=
  if (phase <? piConstant)%S
  then (of_Z (-1) + of_Z 2 * phase / piConstant)%S
  else (of_Z 3 - of_Z 2 * phase / piConstant)%S.
Definition pulseWave (phase : sample_type) : sample_type :=
  if (phase <? piConstant)%S then of_Z 1 else of_Z (-1).

(** [getCurrentValue()] of [SawOsc], [TriangleOsc] and [PulseOsc]: the
    amplitude times the waveform at the stored phase. *)
Definition getCurrentValue (wave : sample_type -> sample_type) (o : t)
  : sample_type :=
  (getAmplitude o * wave (getPhase o))%S.
End Oscillator.
End Oscillator.

(** ** PulseOsc: the oscillator with a pulse width *)

Module PulseOsc.
Section PulseOsc.
Context {sample_type : Type} `{SampleOps sample_type}.
Variable ndebug : bool.

Record t : Type := mk {
  base : @Oscillator.t sample_type;
  m_pulseWidth : sample_type
}.

(** [PulseOsc() : m_pulseWidth(0.5)]. *)
Definition init : t :=
  {| base := Oscillator.init; m_pulseWidth := (of_Z 1 / of_Z 2)%S |}.

Definition setPulseWidth (o : t) (pulseWidth : sample_type) : t :=
  {| base := base o;
     m_pulseWidth := clamp pulseWidth (of_Z 0) (of_Z 1) |}.

Definition getPulseWidth (o : t) : sample_type := m_pulseWidth o.

Definition setParameter (o : t) (name : string) (value : sample_type)
  : Outcome t :=
  if String.eqb name "pulseWidth" then Ok (setPulseWidth o value)
  else
    b ← Oscillator.setParameter ndebug (base o) name value;
    Ok {| base := b; m_pulseWidth := m_pulseWidth o |}.

Definition getParameter (o : t) (name : string) : Outcome sample_type :=
  if String.eqb name "pulseWidth" then Ok (getPulseWidth o)
  else Oscillator.getParameter (base o) name.

Definition getParameterNames : list string :=
  Oscillator.getParameterNames ++ ["pulseWidth"].

Definition getNumInputs : nat := 3.

(** [reset()] is inherited from [Oscillator]. *)
Definition reset (o : t) : t :=
  {| base := Oscillator.reset (base o); m_pulseWidth := m_pulseWidth o |}.
End PulseOsc.
End PulseOsc.

(** ** The node interface (UGen.h) *)

(** The members of the abstract class that the engine and the claims use.
    [process] receives its buffer pointers and works on the engine's
    buffers; it may update the node's own state. *)
Module UGen.
Class class (sample_type M : Type) : Type := {
  getNumInputs : M -> nat;
  getNumOutputs : M -> nat;
  process : M -> list (option ptr) -> list ptr -> nat ->
            Store sample_type -> Outcome (M * Store sample_type);
  setParameter : M -> string -> sample_type -> Outcome M;
  getParameter : M -> string -> Outcome sample_type;
  reset : M -> M
}.
End UGen.

(** ** GainModule *)

Module GainModule.
Section GainModule.
Context {sample_type : Type} `{SampleOps sample_type}.

Record t : Type := mk { m_gain : sample_type }.

(** [GainModule() : m_gain(1.0F)]. *)
Definition init : t := {| m_gain := of_Z 1 |}.

Definition MAX_GAIN : sample_type := of_Z 10.

(** [SIMDOperations::vector_size] for [float] samples:
    [sizeof(__m256) / sizeof(float)]. *)
Definition vector_size : N := 8.

(** The two loops of [SIMDOperations::multiply], from index [i] on:
    [output[i] = input[i] * gain] for [count] more samples.  The vector
    loop and the scalar tail compute the same element-wise products in
    increasing order. *)
Fixpoint multiply_loop (count : nat) (st : Store sample_type)
    (input output : ptr) (i : nat) (gain : sample_type)
  : Outcome (Store sample_type) :=
  match count with
  | O => Ok st
  | S count' =>
      x ← load st input i;
      st ← store st output i (x * gain)%S;
      multiply_loop count' st input output (S i) gain
  end.

(** [SIMDOperations::multiply(input, output, numFrames, gain)].  The
    vector loop tests [i + vector_size <= numFrames] on [unsigned int]:
    for [numFrames >= 2^32 - vector_size] the sum wraps to 0 at
    [i = 2^32 - vector_size], the test stays true and the loop does not
    end: it runs past the buffers, or for ever, both undefined.  Below that
    bound nothing wraps. *)
Definition multiply (st : Store sample_type) (input output : ptr)
    (numFrames : nat) (gain : sample_type) : Outcome (Store sample_type) :=
  if (N.of_nat numFrames <? 2 ^ 32 - vector_size)%N
  then multiply_loop numFrames st input output 0 gain
  else Undefined.

(** [process]: an input that is not bound is a null pointer, and reading
    through it is undefined behaviour.  [input] and [output] are declared
    [__restrict]: the samples written through [output] may not be read
    through [input], so a call with both pointing to the same buffer is
    undefined behaviour as well. *)
Definition process (g : t) (inputs : list (option ptr)) (outputs : list ptr)
    (numFrames : nat) (st : Store sample_type)
  : Outcome (t * Store sample_type) :=
  match inputs, outputs with
  | [], _ | _, [] => Ok (g, st)
  | input :: _, output :: _ =>
      if decide (numFrames = 0%nat) then Ok (g, st) else
      match input with
      | Some input =>
          if decide (input = output) then Undefined else
          st ← multiply st input output numFrames (m_gain g);
          Ok (g, st)
      | None => Undefined
      end
  end.

Definition getNumInputs : nat := 1.
Definition getNumOutputs : nat := 1.

Definition getInputName (index : nat) : Outcome string :=
  if decide (index = 0%nat) then Ok "Input"
  else Throw (out_of_range "Invalid input index").

Definition getOutputName (index : nat) : Outcome string :=
  if decide (index = 0%nat) then Ok "Output"
  else Throw (out_of_range "Invalid output index").

Definition setParameter (g : t) (name : string) (value : sample_type) : t :=
  if String.eqb name "Gain"
  then {| m_gain := clamp value (of_Z 0) MAX_GAIN |}
  else g.

Definition getParameter (g : t) (name : string) : sample_type :=
  if String.eqb name "Gain" then m_gain g else of_Z 0.

Definition getParameterNames : list string := ["Gain"].

Definition reset (g : t) : t := {| m_gain := of_Z 1 |}.
End GainModule.
End GainModule.

(** ** ModularSystem (ModularSystem.h) *)

Module ModularSystem.

(** [struct Connection], with the scalar index fields that [connect],
    [disconnect] and [process] read and write. *)
Record Connection : Type := mkConnection {
  fromModule : string;
  outputIndex : nat;
  toModule : string;
  inputIndex : nat
}.

#[global] Instance Connection_eq_dec : EqDecision Connection.
Proof. solve_decision. Defined.

Section ModularSystem.
Context {sample_type M : Type}.
Context `{SampleOps sample_type} `{UGen.class sample_type M}.

(** [m_modules] is an [unordered_map]; the list gives its entries in
    iteration order, which [process] uses both as processing order and,
    through [std::distance], as buffer numbering.  Keys are unique. *)
Record t : Type := mk {
  m_modules : list (string * M);
  m_connections : list Connection;
  m_audioBuffers : Store sample_type
}.

Definition init : t :=
  {| m_modules := []; m_connections := []; m_audioBuffers := [] |}.

Definition names (s : t) : list string := (m_modules s).*1.

(** [m_modules.find(name)] and [std::distance(m_modules.begin(), it)]. *)
Definition find (name : string) (modules : list (string * M))
  : option (nat * (string * M)) :=
  list_find (fun e => e.1 = name) modules.

Fixpoint find_index (name : string) (keys : list string) : option nat :=
  match keys with
  | [] => None
  | k :: keys' =>
      if String.eqb k name then Some 0%nat
      else S <$> find_index name keys'
  end.

Definition registered (name : string) (s : t) : Prop :=
  name ∈ names s.

(** [addModule].  The iteration order of an [unordered_map] follows the
    hashes of the keys, and an insertion may rehash: neither the position
    of the new entry nor the order of the old ones is specified.  The list
    shows one such order, with the new entry first; the statements about
    [addModule] speak of membership and lookup only, not of positions. *)
Definition addModule (s : t) (name : string) (module : M) : Outcome t :=
  match find_index name (names s) with
  | Some _ =>
      Throw (runtime_error ("Module with name '" ++ name ++ "' already exists."))
  | None =>
      Ok {| m_modules := (name, module) :: m_modules s;
            m_connections := m_connections s;
            m_audioBuffers := m_audioBuffers s |}
  end.

(** [removeModule]. *)
Definition removeModule (s : t) (name : string) : Outcome t :=
  match find_index name (names s) with
  | None =>
      Throw (runtime_error ("Module with name '" ++ name ++ "' does not exist."))
  | Some i =>
      Ok {| m_modules := delete i (m_modules s);
            m_connections :=
              List.filter (fun conn =>
                negb (String.eqb (fromModule conn) name
                      || String.eqb (toModule conn) name))
                (m_connections s);
            m_audioBuffers := m_audioBuffers s |}
  end.

(** [connect]. *)
Definition connect (s : t) (fromModule : string) (outputIndex : nat)
    (toModule : string) (inputIndex : nat) : Outcome t :=
  match find_index fromModule (names s) with
  | None =>
      Throw (runtime_error ("Module '" ++ fromModule ++ "' does not exist."))
  | Some _ =>
      match find_index toModule (names s) with
      | None =>
          Throw (runtime_error ("Module '" ++ toModule ++ "' does not exist."))
      | Some _ =>
          Ok {| m_modules := m_modules s;
                m_connections :=
                  m_connections s ++
                  [mkConnection fromModule outputIndex toModule inputIndex];
                m_audioBuffers := m_audioBuffers s |}
      end
  end.

(** [m_connections.erase(std::find_if(...))]: the first element that
    satisfies the predicate is removed. *)
Fixpoint erase_first (p : Connection -> bool) (l : list Connection)
  : list Connection :=
  match l with
  | [] => []
  | c :: l' => if p c then l' else c :: erase_first p l'
  end.

(** The predicate of [disconnect]. *)
Definition same_connection (fromModule' : string) (outputIndex' : nat)
    (toModule' : string) (inputIndex' : nat) (conn : Connection) : bool :=
  String.eqb (fromModule conn) fromModule'
  && Nat.eqb (outputIndex conn) outputIndex'
  && String.eqb (toModule conn) toModule'
  && Nat.eqb (inputIndex conn) inputIndex'.

(** [disconnect]. *)
Definition disconnect (s : t) (fromModule : string) (outputIndex : nat)
    (toModule : string) (inputIndex : nat) : t :=
  {| m_modules := m_modules s;
     m_connections :=
       erase_first (same_connection fromModule outputIndex toModule inputIndex)
         (m_connections s);
     m_audioBuffers := m_audioBuffers s |}.

(** The loop [for (const auto &conn : m_connections)] that binds the
    inputs of module [name]: [inputs[conn.inputIndex] = buffer]. *)
Fixpoint gatherInputs (keys : list string) (conns : list Connection)
    (name : string) (inputs : list (option ptr))
  : Outcome (list (option ptr)) :=
  match conns with
  | [] => Ok inputs
  | conn :: conns' =>
      if String.eqb (toModule conn) name then
        match find_index (fromModule conn) keys with
        | Some bufferIndex =>
            inputs ← store_at inputs (inputIndex conn) (Some bufferIndex);
            gatherInputs keys conns' name inputs
        | None => gatherInputs keys conns' name inputs
        end
      else gatherInputs keys conns' name inputs
  end.

(** The body of the loop over [m_modules] for the entry [(name, module)]. *)
Definition processModule (keys : list string) (conns : list Connection)
    (numFrames : nat) (name : string) (module : M) (st : Store sample_type)
  : Outcome (M * Store sample_type) :=
  inputs ← gatherInputs keys conns name
             (replicate (UGen.getNumInputs module) None);
  let moduleIndex := default (length keys) (find_index name keys) in
  let outputs := replicate (UGen.getNumOutputs module) moduleIndex in
  UGen.process module inputs outputs numFrames st.

(** The loop over [m_modules]; the modules are updated in place. *)
Fixpoint processModules (keys : list string) (conns : list Connection)
    (numFrames : nat) (todo : list (string * M)) (st : Store sample_type)
  : Outcome (list (string * M) * Store sample_type) :=
  match todo with
  | [] => Ok ([], st)
  | (name, module) :: todo' =>
      '(module, st) ← processModule keys conns numFrames name module st;
      '(rest, st) ← processModules keys conns numFrames todo' st;
      Ok ((name, module) :: rest, st)
  end.

(** [process(numFrames)]; [resize n x l] is [std::vector::resize]: it keeps
    the first [n] elements of [l] and fills up to [n] elements with [x]. *)
Definition process (s : t) (numFrames : nat) : Outcome t :=
  let buffers := resize (length (m_modules s)) [] (m_audioBuffers s) in
  let buffers := resize numFrames (of_Z 0) <$> buffers in
  '(modules, buffers) ←
    processModules (names s) (m_connections s) numFrames (m_modules s) buffers;
  Ok {| m_modules := modules;
        m_connections := m_connections s;
        m_audioBuffers := buffers |}.

(** [getModuleNames], [getModule]. *)
Definition getModuleNames (s : t) : list string := names s.
Definition getModule (s : t) (name : string) : option M :=
  snd <$> (snd <$> find name (m_modules s)).
End ModularSystem.
End ModularSystem.

(** ** Node classes behind the interface *)

(** A generator that fills its output with one constant value.  It is the
    constant source of the graph examples; the engine accepts any class that
    implements the node interface. *)
Module ConstSource.
Section ConstSource.
Context {sample_type : Type}.

Record t : Type := mk { value : sample_type }.

Fixpoint fill (count : nat) (st : Store sample_type) (output : ptr)
    (i : nat) (v : sample_type) : Outcome (Store sample_type) :=
  match count with
  | O => Ok st
  | S count' =>
      st ← store st output i v;
      fill count' st output (S i) v
  end.

Definition process (c : t) (inputs : list (option ptr)) (outputs : list ptr)
    (numFrames : nat) (st : Store sample_type)
  : Outcome (t * Store sample_type) :=
  match outputs with
  | [] => Ok (c, st)
  | output :: _ => st ← fill numFrames st output 0 (value c); Ok (c, st)
  end.
End ConstSource.
End ConstSource.

(** The dynamic type of a node: virtual calls dispatch on the constructor.
    [Saw], [Triangle] and [Pulse] are the classes [SawOsc], [TriangleOsc]
    and [PulseOsc] of Oscillator.h along their scalar path; [SineOsc] and
    [SquareOsc] differ from them only by a waveform that calls [std::sin]. *)
Module Node.
Section Node.
Context {sample_type : Type} `{SampleOps sample_type}.
(** [NDEBUG], and the value [AudioEngine::getSampleRate()] returns. *)
Variable ndebug : bool.
Variable sampleRate : N.

Inductive t : Type :=
| Gain (g : @GainModule.t sample_type)
| Saw (o : @Oscillator.t sample_type)
| Triangle (o : @Oscillator.t sample_type)
| Pulse (o : @Oscillator.t sample_type)
| Const (c : @ConstSource.t sample_type).

Definition getNumInputs (m : t) : nat :=
  match m with
  | Gain _ => GainModule.getNumInputs
  | Saw _ | Triangle _ | Pulse _ => Oscillator.getNumInputs
  | Const _ => 0
  end.

Definition getNumOutputs (m : t) : nat :=
  match m with
  | Gain _ => GainModule.getNumOutputs
  | Saw _ | Triangle _ | Pulse _ => Oscillator.getNumOutputs
  | Const _ => 1
  end.

Definition process (m : t) (inputs : list (option ptr)) (outputs : list ptr)
    (numFrames : nat) (st : Store sample_type)
  : Outcome (t * Store sample_type) :=
  match m with
  | Gain g =>
      '(g, st) ← GainModule.process g inputs outputs numFrames st;
      Ok (Gain g, st)
  | Saw o =>
      '(o, st) ← Oscillator.process Oscillator.sawWave sampleRate o
                   inputs outputs numFrames st;
      Ok (Saw o, st)
  | Triangle o =>
      '(o, st) ← Oscillator.process Oscillator.triangleWave sampleRate o
                   inputs outputs numFrames st;
      Ok (Triangle o, st)
  | Pulse o =>
      '(o, st) ← Oscillator.process Oscillator.pulseWave sampleRate o
                   inputs outputs numFrames st;
      Ok (Pulse o, st)
  | Const c =>
      '(c, st) ← ConstSource.process c inputs outputs numFrames st;
      Ok (Const c, st)
  end.

Definition setParameter (m : t) (name : string) (value : sample_type)
  : Outcome t :=
  match m with
  | Gain g => Ok (Gain (GainModule.setParameter g name value))
  | Saw o => Saw <$> Oscillator.setParameter ndebug o name value
  | Triangle o => Triangle <$> Oscillator.setParameter ndebug o name value
  | Pulse o => Pulse <$> Oscillator.setParameter ndebug o name value
  | Const c => Ok (Const c)
  end.

Definition getParameter (m : t) (name : string) : Outcome sample_type :=
  match m with
  | Gain g => Ok (GainModule.getParameter g name)
  | Saw o | Triangle o | Pulse o => Oscillator.getParameter o name
  | Const c => Ok (ConstSource.value c)
  end.

Definition reset (m : t) : t :=
  match m with
  | Gain g => Gain (GainModule.reset g)
  | Saw o => Saw (Oscillator.reset o)
  | Triangle o => Triangle (Oscillator.reset o)
  | Pulse o => Pulse (Oscillator.reset o)
  | Const c => Const c
  end.

(** The oscillators choose between AVX, SSE and scalar code when they are
    compiled; the other classes are the same code in every build and keep
    no state that [process] changes. *)
Definition isOscillator (m : t) : bool :=
  match m with
  | Saw _ | Triangle _ | Pulse _ => true
  | Gain _ | Const _ => false
  end.

Definition ugen : UGen.class sample_type t := {|
  UGen.getNumInputs := getNumInputs;
  UGen.getNumOutputs := getNumOutputs;
  UGen.process := process;
  UGen.setParameter := setParameter;
  UGen.getParameter := getParameter;
  UGen.reset := reset
|}.
End Node.
End Node.

(** ** Binding of input slots, stated on the connection list *)

Module Binding.
Import ModularSystem.

(** The buffer a connection offers to input [slot] of module [name]: the
    buffer of its source, when the connection targets that slot and its
    source is in the table. *)
Definition offers (keys : list string) (name : string) (slot : nat)
    (conn : Connection) : option ptr :=
  if decide (toModule conn = name /\ inputIndex conn = slot)
  then find_index (fromModule conn) keys
  else None.

(** All producer buffers connected to input [slot] of [name], in the order
    of the connection list. *)
Definition producers (keys : list string) (conns : list Connection)
    (name : string) (slot : nat) : list ptr :=
  omap (offers keys name slot) conns.
End Binding.

(** ** Graphs on which a block runs to its end *)

Module Graph.
Section Graph.
Context {sample_type : Type} `{SampleOps sample_type}.
Import ModularSystem.

Implicit Types (s : @ModularSystem.t sample_type (@Node.t sample_type)).

(** Every connection from a module of the table into a module of the table
    names an input that the destination has. *)
Definition inputsInRange s : Prop :=
  forall (c : Connection) (m : @Node.t sample_type),
    c ∈ m_connections s -> (toModule c, m) ∈ m_modules s ->
    fromModule c ∈ names s ->
    (inputIndex c < Node.getNumInputs m)%nat.

(** Input 0 of every gain node is the target of a connection from a module
    of the table. *)
Definition gainsBound s : Prop :=
  forall (name : string) (g : @GainModule.t sample_type),
    (name, Node.Gain g) ∈ m_modules s ->
    exists c : Connection,
      c ∈ m_connections s /\ toModule c = name /\ inputIndex c = 0%nat
      /\ fromModule c ∈ names s.

(** No connection leads from a module back into the same module. *)
Definition noSelfLoop s : Prop :=
  forall c : Connection, c ∈ m_connections s -> fromModule c <> toModule c.

(** The graph holds no oscillator. *)
Definition noOscillator s : Prop :=
  forall (name : string) (m : @Node.t sample_type),
    (name, m) ∈ m_modules s -> Node.isOscillator m = false.

(** [k] buffers of [n] samples each. *)
Definition shaped (k n : nat) (st : Store sample_type) : Prop :=
  length st = k /\ Forall (fun buf => length buf = n) st.

(** The pointers of an input vector point into [k] buffers. *)
Definition bound (k : nat) (inputs : list (option ptr)) : Prop :=
  Forall (fun x => forall p, x = Some p -> (p < k)%nat) inputs.
End Graph.
End Graph.

(** ** Consistency of the patch graph *)

Module Wiring.
Section Wiring.
Context {sample_type M : Type}.
Import ModularSystem.

(** The names of the module table are unique keys, and every connection
    joins two modules of the table. *)
Definition consistent (s : @ModularSystem.t sample_type M) : Prop :=
  NoDup (names s)
  /\ forall c : Connection,
       c ∈ m_connections s ->
       fromModule c ∈ names s /\ toModule c ∈ names s.
End Wiring.
End Wiring.

(** ** The anti-aliased oscillators (Oscillator.h, PolyBLEP version) *)

Module AntiAliased.
Section AntiAliased.
Context {sample_type : Type} `{SampleOps sample_type}.

(** [SawOsc::getCurrentValue()]; [sampleRate] is the value of
    [AudioEngine::getSampleRate()]. *)
Definition sawCurrentValue (sampleRate : N) (o : @Oscillator.t sample_type)
  : sample_type :=
  let t := (Oscillator.getPhase o / twoPiConstant)%S in
  let dt := (Oscillator.getFrequency o / of_Z (Z.of_N sampleRate))%S in
  (Oscillator.getAmplitude o
   * (of_Z 2 * t - of_Z 1 - Oscillator.polyBlep t dt))%S.

(** [PulseOsc::getCurrentValue()]. *)
Definition pulseCurrentValue (sampleRate : N) (o : @PulseOsc.t sample_type)
  : sample_type :=
  let b := PulseOsc.base o in
  let t := (Oscillator.getPhase b / twoPiConstant)%S in
  let dt := (Oscillator.getFrequency b / of_Z (Z.of_N sampleRate))%S in
  let value :=
    if (t <? PulseOsc.m_pulseWidth o)%S then of_Z 1 else of_Z (-1) in
  let value := (value - Oscillator.polyBlep t dt)%S in
  let value :=
    (value
     + Oscillator.polyBlep
         (fmod (t + of_Z 1 - PulseOsc.m_pulseWidth o) (of_Z 1)) dt)%S in
  (Oscillator.getAmplitude b * value)%S.

(** The loop of [SawOsc::polyBlepSIMD]: lane [index] of [result] is
    written when the lane is next to an edge. *)
Fixpoint polyBlepSIMD_loop (count index : nat)
    (timeVector deltaTimeVector result : list sample_type)
  : Outcome (list sample_type) :=
  match count with
  | O => Ok result
  | S count' =>
      time ← load_at timeVector index;
      deltaTime ← load_at deltaTimeVector index;
      result ←
        (if (time <? deltaTime)%S then
           let timeRatio1 := (time / deltaTime)%S in
           store_at result index
             (timeRatio1 + timeRatio1 - timeRatio1 * timeRatio1 - of_Z 1)%S
         else if (time >? of_Z 1 - deltaTime)%S then
           let timeRatio2 := ((time - of_Z 1) / deltaTime)%S in
           store_at result index
             (timeRatio2 * timeRatio2 + timeRatio2 + timeRatio2 + of_Z 1)%S
         else Ok result);
      polyBlepSIMD_loop count' (S index) timeVector deltaTimeVector result
  end.

(** [SawOsc::polyBlepSIMD(timeVector, deltaTimeVector)]. *)
Definition polyBlepSIMD (timeVector deltaTimeVector : list sample_type)
  : Outcome (list sample_type) :=
  polyBlepSIMD_loop (length timeVector) 0 timeVector deltaTimeVector
    (replicate (length timeVector) (of_Z 0)).
End AntiAliased.
End AntiAliased.

(** ** util::clamp (Utils.h) and UGen::clamp (UGen.h) *)

Module util.
Section util.
Context {T : Type} `{SampleOps T}.

(** [std::min(a, b)]: [(b < a) ? b : a]; [std::max(a, b)]:
    [(a < b) ? b : a]. *)
Definition std_min (a b : T) : T := if (b <? a)%S then b else a.
Definition std_max (a b : T) : T := if (a <? b)%S then b else a.

(** [clamp(value, min, max)]: [std::max(min, std::min(value, max))]. *)
Definition clamp (value min max : T) : T := std_max min (std_min value max).
End util.
End util.

(** ** The table-lookup oscillator (TableOsc.cpp) *)

(** [static_cast<int>] of a sample: the integer part, rounded toward zero. *)
Class ToInt (T : Type) : Type := to_int : T -> Z.
#[global] Instance Q_ToInt : ToInt Q := Qtrunc.

Module LookupTable.
Section LookupTable.
Context {sample_type : Type} `{SampleOps sample_type} `{ToInt sample_type}.

Definition tableSize : Z := 2048.

(** [cubicInterpolate(v0, v1, v2, v3, t)]. *)
Definition cubicInterpolate (v0 v1 v2 v3 t : sample_type) : sample_type :=
  let P := (v3 - v2 - (v0 - v1))%S in
  let Q := (v0 - v1 - P)%S in
  let R := (v2 - v0)%S in
  let S := v1 in
  (P * t * t * t + Q * t * t + R * t + S)%S.

(** [table[k]] for an index expression of unsigned type. *)
Definition at_index (table : list sample_type) (k : Z) : Outcome sample_type :=
  if (0 <=? k)%Z then load_at table (Z.to_nat k) else Undefined.

(** [interpolate(table, index)].  The conversion to [int] is undefined
    outside the range of [int]; the indices of the three wrapped reads
    are taken modulo [tableSize], the read of [table[idx]] is not. *)
Definition interpolate (table : list sample_type) (index : sample_type)
  : Outcome sample_type :=
  let idx := to_int index in
  if negb ((- 2 ^ 31 <=? idx)%Z && (idx <? 2 ^ 31)%Z) then Undefined else
  let frac := (index - of_Z idx)%S in
  v0 ← at_index table ((idx - 1 + tableSize) mod tableSize)%Z;
  v1 ← at_index table idx;
  v2 ← at_index table ((idx + 1) mod tableSize)%Z;
  v3 ← at_index table ((idx + 2) mod tableSize)%Z;
  Ok (cubicInterpolate v0 v1 v2 v3 frac).

(** [LookupTableOscillator]: a phasor of period 1 and the table. *)
Record t : Type := mk {
  m_phasor : @Phasor.t sample_type;
  m_sineTable : list sample_type
}.

(** The second loop of [process]: the phase is scaled to a table index
    and the table is read there. *)
Fixpoint lookup_loop (count i : nat) (table phaseBuffer output : list sample_type)
  : Outcome (list sample_type) :=
  match count with
  | O => Ok output
  | S count' =>
      x ← load_at phaseBuffer i;
      let phase := (x * of_Z tableSize / (of_Z 2 * piConstant))%S in
      v ← interpolate table phase;
      output ← store_at output i v;
      lookup_loop count' (S i) table phaseBuffer output
  end.

(** [process(input, output, numFrames)]. *)
Definition process (o : t) (input output : list sample_type) (numFrames : nat)
  : Outcome (t * list sample_type) :=
  let phaseBuffer := replicate numFrames (of_Z 0) in
  '(phasor, phaseBuffer) ←
    Phasor.performIn (sample_type := sample_type) 1 (m_phasor o)
      input phaseBuffer numFrames;
  output ← lookup_loop numFrames 0 (m_sineTable o) phaseBuffer output;
  Ok ({| m_phasor := phasor; m_sineTable := m_sineTable o |}, output).
End LookupTable.
End LookupTable.

(** ** Concrete graphs and states, on exact rationals *)

Module Examples.
Import ModularSystem.
Local Open Scope Q_scope.

(** Nodes of a build with assertions enabled, at 48 kHz. *)
#[export] Instance node_ugen : UGen.class Q (@Node.t Q) :=
  Node.ugen false 48000.

Definition constant (v : Q) : @Node.t Q := Node.Const (ConstSource.mk v).
Definition gain : @Node.t Q := Node.Gain GainModule.init.

(** ["a"] emits 0.3, ["b"] emits 0.4, both are connected to input 0 of
    the gain node ["c"]. *)
Definition fanIn : @ModularSystem.t Q (@Node.t Q) :=
  {| m_modules := [("a", constant (3 # 10)); ("b", constant (4 # 10));
                   ("c", gain)];
     m_connections := [mkConnection "a" 0 "c" 0; mkConnection "b" 0 "c" 0];
     m_audioBuffers := [] |}.

(** Two gain nodes that feed each other. *)
Definition cycle : @ModularSystem.t Q (@Node.t Q) :=
  {| m_modules := [("a", gain); ("b", gain)];
     m_connections := [mkConnection "a" 0 "b" 0; mkConnection "b" 0 "a" 0];
     m_audioBuffers := [] |}.

(** Two gain nodes, not connected. *)
Definition pair : @ModularSystem.t Q (@Node.t Q) :=
  {| m_modules := [("a", gain); ("b", gain)];
     m_connections := [];
     m_audioBuffers := [] |}.

(** ["x"] and ["z"] are both connected to input 0 of ["y"], ["x"] first. *)
Definition twoIntoY : @ModularSystem.t Q (@Node.t Q) :=
  {| m_modules := [("x", constant (3 # 10)); ("z", constant (4 # 10));
                   ("y", gain)];
     m_connections := [mkConnection "x" 0 "y" 0; mkConnection "z" 0 "y" 0];
     m_audioBuffers := [] |}.

(** The same fan-in with two sawtooth oscillators of amplitude 0.3 and 0.4
    as producers; at phase 0 their first samples are -0.3 and -0.4. *)
Definition saw (amplitude : Q) : @Node.t Q :=
  Node.Saw (Oscillator.mk 440 amplitude 0).

Definition sawFanIn : @ModularSystem.t Q (@Node.t Q) :=
  {| m_modules := [("a", saw (3 # 10)); ("b", saw (4 # 10)); ("c", gain)];
     m_connections := [mkConnection "a" 0 "c" 0; mkConnection "b" 0 "c" 0];
     m_audioBuffers := [] |}.

(** A constant source of 0.5 into a gain of 2. *)
Definition srcIntoGain : @ModularSystem.t Q (@Node.t Q) :=
  {| m_modules := [("src", constant (1 # 2));
                   ("g", Node.Gain (GainModule.mk 2))];
     m_connections := [mkConnection "src" 0 "g" 0];
     m_audioBuffers := [] |}.

(** A phase accumulator of period 1 that advances by a quarter per sample. *)
Definition quarterPhasor : @Phasor.t Q :=
  {| Phasor.phase_ := 0; Phasor.phase_inc_ := 1 # 4; Phasor.freq_factor := 0 |}.

(** An oscillator away from its defaults. *)
Definition tuned : @Oscillator.t Q :=
  {| Oscillator.m_frequency := 220; Oscillator.m_amplitude := 1 # 2;
     Oscillator.m_phase := 1 |}.
End Examples.

(** * Properties *)

(** ** The outcome monad *)

Lemma bind_Ok {A B} (a : A) (f : A -> Outcome B) : (Ok a ≫= f) = f a.
Proof. reflexivity. Qed.

Lemma bind_Ok_inv {A B} (m : Outcome A) (f : A -> Outcome B) (b : B) :
  (m ≫= f) = Ok b -> exists a, m = Ok a /\ f a = Ok b.
Proof. destruct m; cbn; intros E; try discriminate. eauto. Qed.

Lemma bind_not_Throw {A B} (m : Outcome A) (f : A -> Outcome B) :
  (forall e, m <> Throw e) -> (forall a e, f a <> Throw e) ->
  forall e, (m ≫= f) <> Throw e.
Proof.
  intros Hm Hf e. destruct m as [a|e'| |]; cbn; try discriminate; [auto|].
  exfalso. by apply (Hm e').
Qed.

(** ** Phase accumulator: scalar and unrolled modes *)

Section PhasorModes.
Context {sample_type internal_type : Type}.
Context `{SampleOps internal_type}.
Context `{StaticCast internal_type sample_type}.
Variable wrap_arg : nat.

Abbreviation perform_loop :=
  (Phasor.perform_loop (sample_type := sample_type) wrap_arg).
Abbreviation perform8_loop :=
  (Phasor.perform8_loop (sample_type := sample_type) wrap_arg).
Abbreviation phasorPerform :=
  (Phasor.phasorPerform (sample_type := sample_type)).

(** The template recursion unrolls the body of the scalar loop. *)
Lemma phasorPerform_perform_loop n out k phase phase_inc :
  phasorPerform n out k phase phase_inc (Phasor.wrap wrap_arg)
  = perform_loop n out k phase phase_inc.
Proof.
  revert out k phase. induction n as [|n IH]; intros out k phase; [done|].
  cbn [Phasor.phasorPerform Phasor.perform_loop]. unfold Phasor.computeSample.
  destruct (Phasor.phasorComputeSample _ _ _) as [phase' s].
  destruct (store_at out k s); cbn; auto.
Qed.

(** Running [a + b] iterations is running [a], then [b] from where the
    first run stopped. *)
Lemma perform_loop_add a b out k phase phase_inc :
  perform_loop (a + b) out k phase phase_inc
  = '(phase', out') ← perform_loop a out k phase phase_inc;
    perform_loop b out' (k + a) phase' phase_inc.
Proof.
  revert out k phase. induction a as [|a IH]; intros out k phase.
  - cbn. by rewrite Nat.add_0_r.
  - cbn [Nat.add Phasor.perform_loop].
    destruct (Phasor.computeSample _ _ _) as [phase' s].
    destruct (store_at out k s) as [out'| | |]; cbn; auto.
    rewrite IH. by replace (S k + a)%nat with (k + S a)%nat by lia.
Qed.

Lemma perform8_loop_perform_loop g out k phase phase_inc :
  perform8_loop g out k phase phase_inc
  = perform_loop (8 * g) out k phase phase_inc.
Proof.
  revert out k phase. induction g as [|g IH]; intros out k phase; [done|].
  replace (8 * S g)%nat with (8 + 8 * g)%nat by lia.
  rewrite perform_loop_add. cbn [Phasor.perform8_loop].
  rewrite phasorPerform_perform_loop.
  destruct (perform_loop 8 out k phase phase_inc) as [[phase' out']| | |];
    cbn; auto.
Qed.

(** C6, as the code has it: [perform8] handles whole groups of eight only.
    For every state, buffer and block length [n] it does exactly what
    [perform] does on the first [8 * (n / 8)] samples, so the two modes
    write the same samples and leave the same phase when [n] is a
    multiple of 8; the last [n mod 8] samples are not processed. *)
Theorem perform8_is_perform_on_whole_groups
    (p : @Phasor.t internal_type) (out : list sample_type) (n : nat) :
  Phasor.perform8 wrap_arg p out n
    = Phasor.perform wrap_arg p out (8 * (n / 8))
  /\ ((n mod 8 = 0)%nat ->
      Phasor.perform8 wrap_arg p out n = Phasor.perform wrap_arg p out n).
Proof.
  assert (E : Phasor.perform8 wrap_arg p out n
              = Phasor.perform wrap_arg p out (8 * (n / 8))).
  { unfold Phasor.perform8, Phasor.perform.
    by rewrite perform8_loop_perform_loop. }
  split; [exact E|]. intros Hn. rewrite E. f_equal.
  pose proof (Nat.div_mod_eq n 8). lia.
Qed.

(** The overloads that read a control input agree in the same way. *)
Section PhasorModesWithInput.
Context `{StaticCast sample_type internal_type}.

Abbreviation performIn_loop :=
  (Phasor.performIn_loop (sample_type := sample_type) wrap_arg).
Abbreviation perform8In_loop :=
  (Phasor.perform8In_loop (sample_type := sample_type) wrap_arg).

Lemma phasorPerformIn_performIn_loop n inb out k phase freq_factor :
  Phasor.phasorPerformIn n inb out k phase freq_factor (Phasor.wrap wrap_arg)
  = performIn_loop n inb out k phase freq_factor.
Proof.
  revert out k phase. induction n as [|n IH]; intros out k phase; [done|].
  cbn [Phasor.phasorPerformIn Phasor.performIn_loop].
  destruct (load_at inb k) as [x| | |]; cbn [mbind Outcome_bind]; auto.
  unfold Phasor.computeSample. cbv zeta.
  destruct (Phasor.phasorComputeSample _ _ _) as [phase' s].
  destruct (store_at out k s); cbn [mbind Outcome_bind]; auto.
Qed.

Lemma performIn_loop_add a b inb out k phase freq_factor :
  performIn_loop (a + b) inb out k phase freq_factor
  = '(phase', out') ← performIn_loop a inb out k phase freq_factor;
    performIn_loop b inb out' (k + a) phase' freq_factor.
Proof.
  revert out k phase. induction a as [|a IH]; intros out k phase.
  - cbn. by rewrite Nat.add_0_r.
  - cbn [Nat.add Phasor.performIn_loop].
    destruct (load_at inb k) as [x| | |]; cbn [mbind Outcome_bind]; auto.
    cbv zeta. destruct (Phasor.computeSample _ _ _) as [phase' s].
    destruct (store_at out k s) as [out'| | |]; cbn [mbind Outcome_bind]; auto.
    rewrite IH. by replace (S k + a)%nat with (k + S a)%nat by lia.
Qed.

Lemma perform8In_loop_performIn_loop g inb out k phase freq_factor :
  perform8In_loop g inb out k phase freq_factor
  = performIn_loop (8 * g) inb out k phase freq_factor.
Proof.
  revert out k phase. induction g as [|g IH]; intros out k phase; [done|].
  replace (8 * S g)%nat with (8 + 8 * g)%nat by lia.
  rewrite performIn_loop_add. cbn [Phasor.perform8In_loop].
  rewrite phasorPerformIn_performIn_loop.
  destruct (performIn_loop 8 inb out k phase freq_factor)
    as [[phase' out']| | |]; cbn; auto.
Qed.

Lemma perform8In_is_performIn_on_whole_groups
    (p : @Phasor.t internal_type) (inb out : list sample_type) (n : nat) :
  Phasor.perform8In wrap_arg p inb out n
  = Phasor.performIn wrap_arg p inb out (8 * (n / 8)).
Proof.
  unfold Phasor.perform8In, Phasor.performIn.
  by rewrite perform8In_loop_performIn_loop.
Qed.
End PhasorModesWithInput.
End PhasorModes.

(** ** The patch graph: connection list *)

Section ConnectionList.
Context {sample_type M : Type}.
Context `{SampleOps sample_type} `{UGen.class sample_type M}.
Import ModularSystem.

Implicit Types (s : @ModularSystem.t sample_type M) (c : Connection).

Lemma find_index_None name (keys : list string) :
  find_index name keys = None <-> name ∉ keys.
Proof.
  induction keys as [|k keys IH]; cbn.
  - split; [intros _; apply not_elem_of_nil | done].
  - destruct (String.eqb_spec k name) as [->|Hne].
    + split; [done | intros []; left].
    + rewrite fmap_None, IH, not_elem_of_cons. by intuition.
Qed.

Lemma find_index_Some name (keys : list string) :
  name ∈ keys -> exists i, find_index name keys = Some i.
Proof.
  intros Hin. destruct (find_index name keys) as [i|] eqn:E; [eauto|].
  by apply find_index_None in E.
Qed.

Lemma find_index_lt name (keys : list string) i :
  find_index name keys = Some i -> (i < length keys)%nat.
Proof.
  revert i. induction keys as [|k keys IH]; intros i; cbn; [done|].
  destruct (String.eqb k name); [intros [= <-]; lia|].
  destruct (find_index name keys) as [j|]; cbn; [|done].
  intros [= <-]. specialize (IH j eq_refl). lia.
Qed.

Lemma find_index_lookup name (keys : list string) i :
  find_index name keys = Some i -> keys !! i = Some name.
Proof.
  revert i. induction keys as [|k keys IH]; intros i; cbn; [done|].
  destruct (String.eqb_spec k name) as [->|Hne]; [by intros [= <-]|].
  destruct (find_index name keys) as [j|]; cbn; [|done].
  intros [= <-]. by apply IH.
Qed.

Lemma same_connection_true f o t i c :
  same_connection f o t i c = true <-> c = mkConnection f o t i.
Proof.
  unfold same_connection. rewrite !andb_true_iff, !String.eqb_eq, !Nat.eqb_eq.
  destruct c as [f' o' t' i']; cbn.
  split; [intros [[[-> ->] ->] ->] | intros [= -> -> -> ->]]; done.
Qed.

Lemma erase_first_absent (p : Connection -> bool) (l : list Connection) :
  (forall c, c ∈ l -> p c = false) -> erase_first p l = l.
Proof.
  induction l as [|c l IH]; intros Hl; cbn; [done|].
  rewrite (Hl c) by left. f_equal. apply IH. intros c' Hc'. apply Hl. by right.
Qed.

Lemma erase_first_snoc_absent (p : Connection -> bool) (l : list Connection) c :
  (forall c', c' ∈ l -> p c' = false) -> p c = true ->
  erase_first p (l ++ [c]) = l.
Proof.
  induction l as [|c0 l IH]; intros Hl Hc; cbn.
  - by rewrite Hc.
  - rewrite (Hl c0) by left. f_equal. apply IH; [|done].
    intros c' Hc'. apply Hl. by right.
Qed.

(** Erasing the first copy of [c] from a list that ends with [c] leaves a
    rearrangement of the list without that last element. *)
Lemma erase_first_snoc_perm (p : Connection -> bool) (l : list Connection) c :
  (forall c', p c' = true <-> c' = c) ->
  erase_first p (l ++ [c]) ≡ₚ l.
Proof.
  intros Hp. induction l as [|c0 l IH]; cbn.
  - by rewrite (proj2 (Hp c) eq_refl).
  - destruct (p c0) eqn:E.
    + apply Hp in E as ->. symmetry. apply Permutation_cons_append.
    + by constructor.
Qed.

Lemma connect_registered s (f : string) (o : nat) (t : string) (i : nat) :
  registered f s -> registered t s ->
  connect s f o t i
  = Ok {| m_modules := m_modules s;
          m_connections := m_connections s ++ [mkConnection f o t i];
          m_audioBuffers := m_audioBuffers s |}.
Proof.
  unfold registered, connect.
  by intros [? ->]%find_index_Some [? ->]%find_index_Some.
Qed.

(** C3, as the code has it: [connect] checks the two module names and
    nothing else.  When both modules are in the graph the call succeeds
    for every pair of indices, in range or not, and appends the connection
    to the list; it fails, with a [runtime_error] and leaving the graph as
    it was, exactly when a name is absent. *)
Theorem connect_checks_names_only s (f : string) (o : nat) (t : string) (i : nat) :
  (registered f s -> registered t s ->
   connect s f o t i
   = Ok {| m_modules := m_modules s;
           m_connections := m_connections s ++ [mkConnection f o t i];
           m_audioBuffers := m_audioBuffers s |})
  /\ (~ registered f s ->
      connect s f o t i
      = Throw (runtime_error ("Module '" ++ f ++ "' does not exist.")))
  /\ (registered f s -> ~ registered t s ->
      connect s f o t i
      = Throw (runtime_error ("Module '" ++ t ++ "' does not exist."))).
Proof.
  unfold registered, connect. repeat split.
  - apply connect_registered.
  - intros ->%find_index_None. done.
  - intros [? ->]%find_index_Some ->%find_index_None. done.
Qed.

Lemma erase_first_middle (p : Connection -> bool) (l1 l2 : list Connection) c :
  (forall c', c' ∈ l1 -> p c' = false) -> p c = true ->
  erase_first p (l1 ++ c :: l2) = l1 ++ l2.
Proof.
  induction l1 as [|c0 l1 IH]; intros Hl Hc; cbn.
  - by rewrite Hc.
  - rewrite (Hl c0) by left. f_equal. apply IH; [|done].
    intros c' Hc'. apply Hl. by right.
Qed.

(** C8, as the code has it: [connect] appends at the end without looking
    for duplicates and [disconnect] erases the first connection equal to
    the tuple.  With both modules in the graph, connect-then-disconnect
    gives back the connection list as it was when the tuple was not
    connected before; when it was, the earliest copy is erased and the new
    copy stays last, so the list comes back rearranged.  The modules and
    the buffers are untouched.  [disconnect] of a tuple that is not in the
    list changes nothing. *)
Theorem connect_then_disconnect s (f : string) (o : nat) (t : string) (i : nat) :
  registered f s -> registered t s ->
  exists s',
    connect s f o t i = Ok s'
    /\ m_modules (disconnect s' f o t i) = m_modules s
    /\ m_audioBuffers (disconnect s' f o t i) = m_audioBuffers s
    /\ m_connections (disconnect s' f o t i) ≡ₚ m_connections s
    /\ (mkConnection f o t i ∉ m_connections s -> disconnect s' f o t i = s)
    /\ (forall l1 l2,
          m_connections s = l1 ++ mkConnection f o t i :: l2 ->
          mkConnection f o t i ∉ l1 ->
          m_connections (disconnect s' f o t i)
          = l1 ++ l2 ++ [mkConnection f o t i])
    /\ (mkConnection f o t i ∉ m_connections s -> disconnect s f o t i = s).
Proof.
  intros Hf Ht.
  rewrite (connect_registered s f o t i Hf Ht).
  eexists; split; [done|]. cbn.
  assert (Habs : forall l : list Connection, mkConnection f o t i ∉ l ->
                 forall c', c' ∈ l -> same_connection f o t i c' = false).
  { intros l Hno c' Hc'. destruct (same_connection f o t i c') eqn:E; [|done].
    apply same_connection_true in E as ->. done. }
  repeat split.
  - apply erase_first_snoc_perm. apply same_connection_true.
  - intros Hno. destruct s as [ms cs bs]. unfold disconnect; cbn in *. f_equal.
    apply erase_first_snoc_absent; [by apply Habs|].
    by apply same_connection_true.
  - intros l1 l2 -> Hno. rewrite <- (assoc_L (++)). cbn [app].
    apply erase_first_middle; [by apply Habs|]. by apply same_connection_true.
  - intros Hno. destruct s as [ms cs bs]. unfold disconnect; cbn in *. f_equal.
    apply erase_first_absent. by apply Habs.
Qed.
End ConnectionList.

(** ** The patch graph: one block of processing *)

Section EngineProcess.
Context {sample_type M : Type}.
Context `{SampleOps sample_type} `{UGen.class sample_type M}.
Import ModularSystem Binding.

Implicit Types (s : @ModularSystem.t sample_type M) (c : Connection).

Lemma find_index_elem name (keys : list string) i :
  find_index name keys = Some i -> name ∈ keys.
Proof.
  intros E. destruct (decide (name ∈ keys)) as [|Hno]; [done|].
  apply find_index_None in Hno. congruence.
Qed.

(** The binding loop writes the connections in list order, so each slot
    ends up with the last buffer offered to it, or keeps its initial
    content when nothing is offered. *)
Lemma gatherInputs_last keys conns name (inputs0 : list (option ptr)) :
  (forall c, c ∈ conns -> toModule c = name -> fromModule c ∈ keys ->
             (inputIndex c < length inputs0)%nat) ->
  exists inputs,
    gatherInputs keys conns name inputs0 = Ok inputs
    /\ length inputs = length inputs0
    /\ forall slot x0, inputs0 !! slot = Some x0 ->
         inputs !! slot
         = Some (from_option Some x0 (last (producers keys conns name slot))).
Proof.
  revert inputs0. induction conns as [|c conns IH]; intros inputs0 Hrange.
  { exists inputs0. cbn. auto. }
  assert (Hrange' : forall c', c' ∈ conns -> toModule c' = name ->
            fromModule c' ∈ keys -> (inputIndex c' < length inputs0)%nat).
  { intros c' Hc'. apply Hrange. by right. }
  cbn [gatherInputs].
  destruct (String.eqb_spec (toModule c) name) as [Hto|Hto].
  - destruct (find_index (fromModule c) keys) as [b|] eqn:Eb.
    + assert (Hlt : (inputIndex c < length inputs0)%nat).
      { apply Hrange; [by left|done|]. by eapply find_index_elem. }
      unfold store_at. rewrite decide_True by done. rewrite bind_Ok.
      destruct (IH (<[inputIndex c := Some b]> inputs0)) as (inputs & E & Hlen & Hslot).
      { by rewrite length_insert. }
      exists inputs. rewrite length_insert in Hlen. repeat split; [done..|].
      intros slot x0 Hx0. unfold producers. cbn [omap list_omap].
      unfold offers at 1. destruct (decide (inputIndex c = slot)) as [<-|Hne].
      * rewrite decide_True by done. rewrite Eb, last_cons.
        erewrite Hslot by (by apply list_lookup_insert_eq).
        fold (producers keys conns name (inputIndex c)).
        by destruct (last (producers keys conns name (inputIndex c))).
      * rewrite decide_False by tauto.
        apply Hslot. by rewrite list_lookup_insert_ne.
    + destruct (IH inputs0 Hrange') as (inputs & E & Hlen & Hslot).
      exists inputs. repeat split; [done..|].
      intros slot x0 Hx0. unfold producers. cbn [omap list_omap].
      unfold offers at 1. rewrite Eb.
      destruct (decide _); by apply Hslot.
  - destruct (IH inputs0 Hrange') as (inputs & E & Hlen & Hslot).
    exists inputs. repeat split; [done..|].
    intros slot x0 Hx0. unfold producers. cbn [omap list_omap].
    unfold offers at 1. rewrite decide_False by tauto. by apply Hslot.
Qed.

(** C1, as the code has it: an input slot holds one buffer pointer and the
    binding loop overwrites it, so a node whose slot is the target of
    several connections is handed the buffer of the last of them in the
    connection list, and nothing is summed.  For every module of the graph
    whose incoming connections have input indices below its input count,
    [process] calls the node with, in each slot, the last producer buffer
    connected to the slot (no buffer when there is none); the samples the
    node reads through the slot are the samples of that one buffer. *)
Theorem process_binds_last_connection
    (keys : list string) (conns : list Connection) (numFrames : nat)
    (name : string) (module : M) (st : Store sample_type) :
  (forall c, c ∈ conns -> toModule c = name -> fromModule c ∈ keys ->
             (inputIndex c < UGen.getNumInputs module)%nat) ->
  exists inputs : list (option ptr),
    length inputs = UGen.getNumInputs module
    /\ (forall slot, (slot < UGen.getNumInputs module)%nat ->
          inputs !! slot = Some (last (producers keys conns name slot)))
    /\ processModule keys conns numFrames name module st
       = UGen.process module inputs
           (replicate (UGen.getNumOutputs module)
              (default (length keys) (find_index name keys)))
           numFrames st.
Proof.
  intros Hrange.
  destruct (gatherInputs_last keys conns name
              (replicate (UGen.getNumInputs module) None))
    as (inputs & E & Hlen & Hslot).
  { by rewrite length_replicate. }
  rewrite length_replicate in Hlen.
  exists inputs. repeat split; [done| |].
  - intros slot Hlt. erewrite Hslot by (by apply lookup_replicate_2).
    by destruct (last _).
  - unfold processModule. by rewrite E.
Qed.

Lemma store_at_not_Throw {A} (buf : list A) k v e : store_at buf k v <> Throw e.
Proof. unfold store_at. by destruct (decide _). Qed.

Lemma gatherInputs_not_Throw keys conns name (inputs : list (option ptr)) e :
  gatherInputs keys conns name inputs <> Throw e.
Proof.
  revert inputs e.
  induction conns as [|c conns IH]; intros inputs e; cbn; [done|].
  destruct (String.eqb _ _); [|by apply IH].
  destruct (find_index _ _); [|by apply IH].
  apply bind_not_Throw; [intros; apply store_at_not_Throw | intros; apply IH].
Qed.

Section NoThrow.
Variable numFrames : nat.
Hypothesis nodes_do_not_throw :
  forall (module : M) inputs outputs st e,
    UGen.process module inputs outputs numFrames st <> Throw e.

Lemma processModules_not_Throw keys conns (todo : list (string * M)) st e :
  processModules keys conns numFrames todo st <> Throw e.
Proof.
  revert st e.
  induction todo as [|[name module] todo IH]; intros st e; cbn; [done|].
  apply bind_not_Throw.
  - intros e'. unfold processModule. apply bind_not_Throw.
    + intros; apply gatherInputs_not_Throw.
    + intros; apply nodes_do_not_throw.
  - intros [module' st'] e'. apply bind_not_Throw; [intros; apply IH|].
    by intros [rest st''] e''.
Qed.
End NoThrow.

Lemma processModules_names keys conns numFrames (todo : list (string * M)) st
    (done' : list (string * M)) st' :
  processModules keys conns numFrames todo st = Ok (done', st') ->
  done'.*1 = todo.*1.
Proof.
  revert st done' st'.
  induction todo as [|[name module] todo IH]; intros st done' st'; cbn.
  - by intros [= <- <-].
  - intros ([module' st1] & _ & E)%bind_Ok_inv.
    apply bind_Ok_inv in E as ([rest st2] & E & [= <- <-]).
    cbn. f_equal. by eapply IH.
Qed.

(** The engine raises no exception of its own. *)
Lemma process_never_throws s (numFrames : nat) :
  (forall (module : M) inputs outputs st e,
     UGen.process module inputs outputs numFrames st <> Throw e) ->
  forall e, process s numFrames <> Throw e.
Proof.
  intros Hnodes e. unfold process. apply bind_not_Throw.
  - intros e'. by apply processModules_not_Throw.
  - by intros [modules buffers] e'.
Qed.
End EngineProcess.

(** ** Parameters of the nodes *)

Section Parameters.
Context {sample_type : Type} `{SampleOps sample_type}.
Variable ndebug : bool.

Implicit Types (o : @Oscillator.t sample_type) (g : @GainModule.t sample_type).

Lemma setFrequency_rejected o (v : sample_type) :
  (v >? of_Z 0)%S = false ->
  Oscillator.setFrequency ndebug o v
  = if ndebug
    then Ok (Oscillator.mk v (Oscillator.m_amplitude o) (Oscillator.m_phase o))
    else Abort.
Proof.
  intros E. unfold Oscillator.setFrequency, Oscillator.assert. rewrite E.
  by destruct ndebug.
Qed.

Lemma setAmplitude_rejected o (v : sample_type) :
  (v >=? of_Z 0)%S = false ->
  Oscillator.setAmplitude ndebug o v
  = if ndebug
    then Ok (Oscillator.mk (Oscillator.m_frequency o) v (Oscillator.m_phase o))
    else Abort.
Proof.
  intros E. unfold Oscillator.setAmplitude, Oscillator.assert. rewrite E.
  by destruct ndebug.
Qed.

Lemma setFrequency_accepted o (v : sample_type) :
  (v >? of_Z 0)%S = true ->
  Oscillator.setFrequency ndebug o v
  = Ok (Oscillator.mk v (Oscillator.m_amplitude o) (Oscillator.m_phase o)).
Proof.
  intros E. unfold Oscillator.setFrequency, Oscillator.assert. rewrite E.
  by destruct ndebug.
Qed.

Lemma setAmplitude_accepted o (v : sample_type) :
  (v >=? of_Z 0)%S = true ->
  Oscillator.setAmplitude ndebug o v
  = Ok (Oscillator.mk (Oscillator.m_frequency o) v (Oscillator.m_phase o)).
Proof.
  intros E. unfold Oscillator.setAmplitude, Oscillator.assert. rewrite E.
  by destruct ndebug.
Qed.

Lemma unknown_name_eqb (name : string) :
  name ∉ Oscillator.getParameterNames ->
  String.eqb name "frequency" = false
  /\ String.eqb name "amplitude" = false
  /\ String.eqb name "phase" = false.
Proof.
  unfold Oscillator.getParameterNames. rewrite !not_elem_of_cons.
  intros (? & ? & ? & _). by rewrite !String.eqb_neq.
Qed.

Lemma setParameter_unknown o (name : string) (v : sample_type) :
  name ∉ Oscillator.getParameterNames ->
  Oscillator.setParameter ndebug o name v
  = Throw (invalid_argument ("Unknown parameter: " ++ name)).
Proof.
  intros (E1 & E2 & E3)%unknown_name_eqb.
  unfold Oscillator.setParameter. by rewrite E1, E2, E3.
Qed.

Lemma getParameter_unknown o (name : string) :
  name ∉ Oscillator.getParameterNames ->
  Oscillator.getParameter o name
  = Throw (invalid_argument ("Unknown parameter: " ++ name)).
Proof.
  intros (E1 & E2 & E3)%unknown_name_eqb.
  unfold Oscillator.getParameter. by rewrite E1, E2, E3.
Qed.

(** C9: on a gain node, a parameter name other than ["Gain"] makes
    [setParameter] return normally with the node unchanged and makes
    [getParameter] return 0, where an oscillator throws
    [invalid_argument] for a name it does not know. *)
Theorem gain_ignores_unknown_parameter_names
    g o (name : string) (v : sample_type) :
  name <> "Gain" ->
  GainModule.setParameter g name v = g
  /\ GainModule.getParameter g name = of_Z 0
  /\ Node.setParameter ndebug (Node.Gain g) name v = Ok (Node.Gain g)
  /\ Node.getParameter (Node.Gain g) name = Ok (of_Z 0)
  /\ (name ∉ Oscillator.getParameterNames ->
      Oscillator.setParameter ndebug o name v
      = Throw (invalid_argument ("Unknown parameter: " ++ name))
      /\ Oscillator.getParameter o name
         = Throw (invalid_argument ("Unknown parameter: " ++ name))).
Proof.
  intros Hne%String.eqb_neq.
  unfold Node.setParameter, Node.getParameter,
    GainModule.setParameter, GainModule.getParameter.
  rewrite Hne. repeat split; [done..| |].
  - by apply setParameter_unknown.
  - by apply getParameter_unknown.
Qed.

(** C10: [reset] sets the phase to 0 and keeps the frequency and the
    amplitude of the oscillator, and the pulse width of a pulse
    oscillator, at their current values; the parameter interface reads
    the same values back. *)
Theorem reset_clears_phase_only o (p : @PulseOsc.t sample_type) :
  Oscillator.getPhase (Oscillator.reset o) = of_Z 0
  /\ Oscillator.getFrequency (Oscillator.reset o) = Oscillator.getFrequency o
  /\ Oscillator.getAmplitude (Oscillator.reset o) = Oscillator.getAmplitude o
  /\ Oscillator.getParameter (Oscillator.reset o) "phase" = Ok (of_Z 0)
  /\ Oscillator.getParameter (Oscillator.reset o) "frequency"
     = Oscillator.getParameter o "frequency"
  /\ Oscillator.getParameter (Oscillator.reset o) "amplitude"
     = Oscillator.getParameter o "amplitude"
  /\ Oscillator.getPhase (PulseOsc.base (PulseOsc.reset p)) = of_Z 0
  /\ Oscillator.getFrequency (PulseOsc.base (PulseOsc.reset p))
     = Oscillator.getFrequency (PulseOsc.base p)
  /\ Oscillator.getAmplitude (PulseOsc.base (PulseOsc.reset p))
     = Oscillator.getAmplitude (PulseOsc.base p)
  /\ PulseOsc.getPulseWidth (PulseOsc.reset p) = PulseOsc.getPulseWidth p
  /\ PulseOsc.getParameter (PulseOsc.reset p) "pulseWidth"
     = PulseOsc.getParameter p "pulseWidth".
Proof. by repeat split. Qed.
End Parameters.

(** ** Arithmetic properties, on exact rationals *)

Section ExactArithmetic.
Local Open Scope Q_scope.

Lemma Qltb_true (x y : Q) : Qltb x y = true <-> x < y.
Proof.
  unfold Qltb. rewrite negb_true_iff, <- not_true_iff_false, Qle_bool_iff.
  split; [apply Qnot_le_lt | apply Qlt_not_le].
Qed.

Lemma Qltb_false (x y : Q) : Qltb x y = false <-> y <= x.
Proof. unfold Qltb. by rewrite negb_false_iff, Qle_bool_iff. Qed.

Lemma Qle_bool_false (x y : Q) : Qle_bool x y = false <-> y < x.
Proof.
  rewrite <- not_true_iff_false, Qle_bool_iff.
  split; [apply Qnot_le_lt | apply Qlt_not_le].
Qed.

Lemma twoPi_pos : 0 < twoPiConstant (T := Q).
Proof. reflexivity. Qed.

(** [wrapPhaseScalar] brings a phase of less than two periods into one. *)
Lemma wrapPhaseScalar_range (x : Q) :
  0 <= x -> x < twoPiConstant + twoPiConstant ->
  0 <= Oscillator.wrapPhaseScalar x < twoPiConstant.
Proof.
  intros H0 H2. unfold Oscillator.wrapPhaseScalar. cbn [fle fsub Q_SampleOps].
  destruct (Qle_bool twoPiConstant x) eqn:E.
  - apply Qle_bool_iff in E. lra.
  - apply Qle_bool_false in E. lra.
Qed.

(** The phase increment of a frequency below the sample rate is less than
    one period. *)
Lemma increment_range (f sr : Q) :
  0 < sr -> 0 <= f -> f < sr ->
  0 <= f * twoPiConstant / sr < twoPiConstant.
Proof.
  intros Hsr Hf0 Hf. pose proof twoPi_pos as Hpi.
  generalize dependent (twoPiConstant (T := Q)). intros tp Htp. split.
  - apply Qle_shift_div_l; [done|]. rewrite Qmult_0_l.
    apply Qmult_le_0_compat; lra.
  - apply Qlt_shift_div_r; [done|]. rewrite (Qmult_comm tp sr).
    by apply Qmult_lt_compat_r.
Qed.

(** [std::fmod] of a non-negative value by a positive period. *)
Lemma Qfmod_range (x w : Q) : 0 <= x -> 0 < w -> 0 <= Qfmod x w < w.
Proof.
  intros Hx Hw. unfold Qfmod, Qtrunc.
  assert (Hq : 0 <= x / w).
  { apply Qle_shift_div_l; [done|]. by rewrite Qmult_0_l. }
  rewrite (proj2 (Qle_bool_iff 0 (x / w)) Hq).
  assert (Ex : x == x / w * w) by (field; lra).
  pose proof (Qfloor_le (x / w)) as Hlo.
  pose proof (Qlt_floor (x / w)) as Hhi.
  rewrite inject_Z_plus in Hhi. change (inject_Z 1) with 1 in Hhi.
  set (k := inject_Z (Qfloor (x / w))) in *.
  set (q := x / w) in *.
  assert (H1 : k * w <= q * w) by (by apply Qmult_le_compat_r; [|apply Qlt_le_weak]).
  assert (H2 : q * w < (k + 1) * w) by (by apply Qmult_lt_compat_r).
  assert (E2 : (k + 1) * w == k * w + w) by ring.
  rewrite E2 in H2.
  set (a := k * w) in *. set (b := q * w) in *. lra.
Qed.

(** C4, as the code has it: the range of a frequency or an amplitude is
    guarded by an [assert], not by an exception.  Setting a frequency
    [v <= 0] or an amplitude [v < 0] aborts the program when assertions
    are enabled, and stores the value when they are compiled out; no error
    is returned to the caller in either build.  A value in range is
    stored, and only a parameter name the oscillator does not know raises
    [invalid_argument] to the caller. *)
Theorem setParameter_range_is_asserted
    (ndebug : bool) (o : @Oscillator.t Q) (v : Q) :
  (v <= 0 ->
   Oscillator.setParameter ndebug o "frequency" v
   = if ndebug
     then Ok (Oscillator.mk v (Oscillator.m_amplitude o) (Oscillator.m_phase o))
     else Abort)
  /\ (v < 0 ->
      Oscillator.setParameter ndebug o "amplitude" v
      = if ndebug
        then Ok (Oscillator.mk (Oscillator.m_frequency o) v (Oscillator.m_phase o))
        else Abort)
  /\ (0 < v ->
      Oscillator.setParameter ndebug o "frequency" v
      = Ok (Oscillator.mk v (Oscillator.m_amplitude o) (Oscillator.m_phase o)))
  /\ (0 <= v ->
      Oscillator.setParameter ndebug o "amplitude" v
      = Ok (Oscillator.mk (Oscillator.m_frequency o) v (Oscillator.m_phase o)))
  /\ (forall name : string,
        name ∉ Oscillator.getParameterNames ->
        Oscillator.setParameter ndebug o name v
        = Throw (invalid_argument ("Unknown parameter: " ++ name))).
Proof.
  change (Oscillator.setParameter ndebug o "frequency" v)
    with (Oscillator.setFrequency ndebug o v).
  change (Oscillator.setParameter ndebug o "amplitude" v)
    with (Oscillator.setAmplitude ndebug o v).
  repeat split.
  - intros Hv. apply setFrequency_rejected. by apply Qltb_false.
  - intros Hv. apply setAmplitude_rejected. by apply Qle_bool_false.
  - intros Hv. apply setFrequency_accepted. by apply Qltb_true.
  - intros Hv. apply setAmplitude_accepted. by apply Qle_bool_iff.
  - intros name Hname. by apply setParameter_unknown.
Qed.

(** The phase that the loop body of [processScalar] leaves is the one
    [advancePhase] computes from the modulated frequency of the sample. *)
Lemma scalarStep_phase (wave : Q -> Q) st output freqMod ampMod
    (phase baseFrequency baseAmplitude sampleRate : Q) i st' phase' :
  Oscillator.scalarStep wave st output freqMod ampMod phase
    baseFrequency baseAmplitude sampleRate i = Ok (st', phase') ->
  exists currentFrequency currentAmplitude,
    Oscillator.applyModulationScalar st baseFrequency baseAmplitude
      freqMod ampMod i = Ok (currentFrequency, currentAmplitude)
    /\ phase' = Oscillator.advancePhase phase currentFrequency sampleRate.
Proof.
  unfold Oscillator.scalarStep.
  intros ([cf ca] & E & E')%bind_Ok_inv.
  apply bind_Ok_inv in E' as (st1 & _ & [= _ <-]). eauto.
Qed.

(** C5, as the code has it: the oscillators wrap by one conditional
    subtraction of the period and the phase accumulator by [std::fmod],
    which keeps the sign of its argument.  The stored phase is in
    [[0, period)] after a step when it was there before the step and the
    step moves it forward by less than a period: for an oscillator, when
    the frequency of that sample (base plus modulation) is at least 0 and
    below the sample rate; for the phase accumulator, whose period is
    [wrap_arg > 0], when phase plus increment is not negative. *)
Theorem phase_stays_in_period_for_small_forward_steps :
  (forall phase currentFrequency sampleRate : Q,
     0 <= phase < twoPiConstant ->
     0 < sampleRate ->
     0 <= currentFrequency < sampleRate ->
     0 <= Oscillator.advancePhase phase currentFrequency sampleRate
       < twoPiConstant)
  /\ (forall (wrap_arg : nat) (phase phase_inc : Q),
        (0 < wrap_arg)%nat ->
        0 <= phase + phase_inc ->
        0 <= (Phasor.computeSample (sample_type := Q) wrap_arg phase phase_inc).1
          < Phasor.wrap wrap_arg).
Proof.
  split.
  - intros phase f sr [Hp0 Hp1] Hsr [Hf0 Hf1]. unfold Oscillator.advancePhase.
    pose proof (increment_range f sr Hsr Hf0 Hf1) as [Hi0 Hi1].
    cbn [fadd fmul fdiv Q_SampleOps].
    apply wrapPhaseScalar_range; lra.
  - intros wrap_arg phase inc Hw Hsum.
    unfold Phasor.computeSample, Phasor.phasorComputeSample.
    cbn [fst fadd fmod Q_SampleOps]. apply Qfmod_range; [done|].
    unfold Phasor.wrap. cbn [of_Z Q_SampleOps].
    change 0 with (inject_Z 0). rewrite <- Zlt_Qlt. lia.
Qed.

(** C7: for [t] in [[0, 1)] and [dt] in [(0, 1/2)], [polyBlep t dt] is
    [t' + t' - t'^2 - 1] with [t' = t / dt] when [t < dt], it is
    [t'^2 + 2 t' + 1] with [t' = (t - 1) / dt] when [t > 1 - dt], and it
    is 0 otherwise. *)
Theorem polyBlep_cases (t dt : Q) :
  0 <= t < 1 -> 0 < dt < 1 # 2 ->
  (t < dt ->
   Oscillator.polyBlep t dt == t / dt + t / dt - (t / dt) * (t / dt) - 1)
  /\ (1 - dt < t ->
      Oscillator.polyBlep t dt
      == ((t - 1) / dt) * ((t - 1) / dt) + 2 * ((t - 1) / dt) + 1)
  /\ (dt <= t <= 1 - dt -> Oscillator.polyBlep t dt = 0).
Proof.
  intros Ht Hdt. unfold Oscillator.polyBlep.
  cbn [flt fadd fsub fmul fdiv of_Z Q_SampleOps]. change (inject_Z 1) with 1.
  repeat split.
  - intros H1. by rewrite (proj2 (Qltb_true _ _) H1).
  - intros H2. rewrite (proj2 (Qltb_false t dt)) by lra.
    rewrite (proj2 (Qltb_true _ _) H2). ring.
  - intros [H1 H2]. rewrite (proj2 (Qltb_false t dt) H1).
    by rewrite (proj2 (Qltb_false _ _) H2).
Qed.
End ExactArithmetic.

(** ** The node classes throw nothing from [process] *)

Section NodesDoNotThrow.
Context {sample_type : Type} `{SampleOps sample_type}.

Lemma load_not_Throw (st : Store sample_type) p i e : load st p i <> Throw e.
Proof.
  unfold load, load_at. destruct (st !! p) as [buf|]; [|done].
  by destruct (buf !! i).
Qed.

Lemma store_not_Throw (st : Store sample_type) p i v e :
  store st p i v <> Throw e.
Proof.
  unfold store. destruct (st !! p) as [buf|]; [|done].
  apply bind_not_Throw; [intros; apply store_at_not_Throw | done].
Qed.

(** Goals of the form [m <> Throw e] for a sequence of buffer accesses. *)
Ltac no_throw IH :=
  repeat first
    [ done
    | apply load_not_Throw
    | apply store_not_Throw
    | apply IH
    | apply bind_not_Throw; intros
    | match goal with
      | |- (let '(_, _) := ?x in _) <> Throw _ => destruct x
      | |- match ?x with _ => _ end <> Throw _ => destruct x
      end ].

Lemma multiply_loop_not_Throw count (st : Store sample_type) input output i gain e :
  GainModule.multiply_loop count st input output i gain <> Throw e.
Proof.
  revert st i e. induction count as [|count IH]; intros st i e; cbn; no_throw IH.
Qed.

Lemma multiply_not_Throw (st : Store sample_type) input output numFrames gain e :
  GainModule.multiply st input output numFrames gain <> Throw e.
Proof.
  unfold GainModule.multiply. destruct (_ <? _)%N; [|done].
  apply multiply_loop_not_Throw.
Qed.

Lemma fill_not_Throw count (st : Store sample_type) output i v e :
  ConstSource.fill count st output i v <> Throw e.
Proof.
  revert st i e. induction count as [|count IH]; intros st i e; cbn; no_throw IH.
Qed.

Lemma scalarLoop_not_Throw wave count (st : Store sample_type) output
    freqMod ampMod phase baseFrequency baseAmplitude sampleRate i e :
  Oscillator.scalarLoop wave count st output freqMod ampMod phase
    baseFrequency baseAmplitude sampleRate i <> Throw e.
Proof.
  revert st phase i e.
  induction count as [|count IH]; intros st phase i e; cbn; [done|].
  unfold Oscillator.scalarStep, Oscillator.applyModulationScalar.
  no_throw IH.
Qed.

Lemma Oscillator_process_not_Throw wave sampleRate (o : @Oscillator.t sample_type)
    inputs outputs numFrames st e :
  Oscillator.process wave sampleRate o inputs outputs numFrames st <> Throw e.
Proof.
  unfold Oscillator.process, Oscillator.processScalar.
  destruct outputs; [done|]. destruct (decide _); [done|].
  apply bind_not_Throw; [intros; apply scalarLoop_not_Throw|].
  by intros [].
Qed.

Lemma Node_process_not_Throw sampleRate (m : @Node.t sample_type)
    inputs outputs numFrames st e :
  Node.process sampleRate m inputs outputs numFrames st <> Throw e.
Proof.
  destruct m; cbn.
  - apply bind_not_Throw; [|by intros []]. intros e'.
    unfold GainModule.process. destruct inputs as [|[input|] ?]; [done| |];
      destruct outputs; try done; destruct (decide _); try done.
    destruct (decide _); [done|].
    apply bind_not_Throw; [intros; apply multiply_not_Throw | done].
  - apply bind_not_Throw; [intros; apply Oscillator_process_not_Throw | by intros []].
  - apply bind_not_Throw; [intros; apply Oscillator_process_not_Throw | by intros []].
  - apply bind_not_Throw; [intros; apply Oscillator_process_not_Throw | by intros []].
  - apply bind_not_Throw; [|by intros []]. intros e'.
    unfold ConstSource.process. destruct outputs; [done|].
    apply bind_not_Throw; [intros; apply fill_not_Throw | done].
Qed.
End NodesDoNotThrow.

(** ** A block runs to its end on every well-formed graph *)

Section BlockRuns.
Context {sample_type : Type} `{SampleOps sample_type}.
Import ModularSystem Graph Binding.
Variable ndebug : bool.
Variable sampleRate : N.

Abbreviation node_class :=
  (Node.ugen (sample_type := sample_type) ndebug sampleRate).

Implicit Types (st : Store sample_type) (k n : nat).

Lemma load_ok k n st p i :
  shaped k n st -> (p < k)%nat -> (i < n)%nat -> exists v, load st p i = Ok v.
Proof.
  intros [Hk Hn] Hp Hi. unfold load, load_at.
  destruct (st !! p) as [buf|] eqn:E.
  - pose proof (Forall_lookup_1 _ _ _ _ Hn E) as Hbuf; cbn in Hbuf.
    destruct (buf !! i) as [v|] eqn:E2; [by exists v|].
    apply lookup_ge_None in E2. lia.
  - apply lookup_ge_None in E. lia.
Qed.

Lemma store_ok k n st p i (v : sample_type) :
  shaped k n st -> (p < k)%nat -> (i < n)%nat ->
  exists st', store st p i v = Ok st' /\ shaped k n st'.
Proof.
  intros [Hk Hn] Hp Hi. unfold store, store_at.
  destruct (st !! p) as [buf|] eqn:E.
  - pose proof (Forall_lookup_1 _ _ _ _ Hn E) as Hbuf; cbn in Hbuf.
    rewrite decide_True by lia. cbn. eexists. split; [done|]. split.
    + by rewrite length_insert.
    + apply Forall_insert; [done|]. by rewrite length_insert.
  - apply lookup_ge_None in E. lia.
Qed.

Lemma multiply_loop_ok k n count st input output i (gain : sample_type) :
  shaped k n st -> (input < k)%nat -> (output < k)%nat -> (i + count <= n)%nat ->
  exists st', GainModule.multiply_loop count st input output i gain = Ok st'
              /\ shaped k n st'.
Proof.
  revert st i. induction count as [|count IH]; intros st i Hst Hin Hout Hi; cbn.
  { eauto. }
  destruct (load_ok k n st input i) as [x ->]; [done|done|lia|]. cbn.
  destruct (store_ok k n st output i (x * gain)%S) as (st' & -> & Hst');
    [done|done|lia|]. cbn.
  apply IH; [done..|lia].
Qed.

Lemma multiply_ok k n st input output (gain : sample_type) :
  shaped k n st -> (input < k)%nat -> (output < k)%nat ->
  (N.of_nat n < 2 ^ 32 - GainModule.vector_size)%N ->
  exists st', GainModule.multiply st input output n gain = Ok st'
              /\ shaped k n st'.
Proof.
  intros Hst Hin Hout Hn. unfold GainModule.multiply.
  rewrite (proj2 (N.ltb_lt _ _) Hn). by apply (multiply_loop_ok k n).
Qed.

Lemma fill_ok k n count st output i (v : sample_type) :
  shaped k n st -> (output < k)%nat -> (i + count <= n)%nat ->
  exists st', ConstSource.fill count st output i v = Ok st' /\ shaped k n st'.
Proof.
  revert st i. induction count as [|count IH]; intros st i Hst Hout Hi; cbn.
  { eauto. }
  destruct (store_ok k n st output i v) as (st' & -> & Hst'); [done|done|lia|].
  cbn. apply IH; [done..|lia].
Qed.

Lemma applyModulationScalar_ok k n st (freq amp : sample_type) freqMod ampMod i :
  shaped k n st -> (i < n)%nat ->
  (forall p, freqMod = Some p -> (p < k)%nat) ->
  (forall p, ampMod = Some p -> (p < k)%nat) ->
  exists r, Oscillator.applyModulationScalar st freq amp freqMod ampMod i = Ok r.
Proof.
  intros Hst Hi Hf Ha. unfold Oscillator.applyModulationScalar.
  destruct freqMod as [pf|]; destruct ampMod as [pa|]; cbn;
    repeat match goal with
    | |- context [load st ?p i] =>
        let x := fresh "x" in
        destruct (load_ok k n st p i) as [x ->]; [done|by auto|done|]; cbn
    end; eauto.
Qed.

Lemma scalarLoop_ok k n wave count st output freqMod ampMod
    (phase baseFrequency baseAmplitude rate : sample_type) i :
  shaped k n st -> (output < k)%nat -> (i + count <= n)%nat ->
  (forall p, freqMod = Some p -> (p < k)%nat) ->
  (forall p, ampMod = Some p -> (p < k)%nat) ->
  exists st' phase',
    Oscillator.scalarLoop wave count st output freqMod ampMod phase
      baseFrequency baseAmplitude rate i = Ok (st', phase')
    /\ shaped k n st'.
Proof.
  revert st phase i.
  induction count as [|count IH]; intros st phase i Hst Hout Hi Hf Ha; cbn.
  { eauto. }
  unfold Oscillator.scalarStep.
  destruct (applyModulationScalar_ok k n st baseFrequency baseAmplitude
              freqMod ampMod i) as [[cf ca] ->]; [done|lia|done..|]. cbn.
  destruct (store_ok k n st output i (ca * wave phase)%S) as (st' & -> & Hst');
    [done|done|lia|]. cbn.
  apply IH; [done..|lia|done|done].
Qed.

Lemma bound_lookup k (inputs : list (option ptr)) j p :
  bound k inputs -> default None (inputs !! j) = Some p -> (p < k)%nat.
Proof.
  intros Hb E. destruct (inputs !! j) as [x|] eqn:Ej; [|done]. cbn in E. subst x.
  by eapply (Forall_lookup_1 _ _ _ _ Hb Ej).
Qed.

Lemma Oscillator_process_ok k n wave (o : @Oscillator.t sample_type)
    inputs outputs st :
  shaped k n st -> Forall (fun p => p < k)%nat outputs -> bound k inputs ->
  exists o' st',
    Oscillator.process wave sampleRate o inputs outputs n st = Ok (o', st')
    /\ shaped k n st'.
Proof.
  intros Hst Hout Hin. unfold Oscillator.process, Oscillator.processScalar.
  destruct outputs as [|output outputs]; [eauto|].
  destruct (decide (n = 0%nat)); [eauto|].
  apply Forall_cons in Hout as [Hout _].
  edestruct (scalarLoop_ok k n wave n st output) as (st' & phase' & -> & Hst');
    [done|done|lia|intros p Hp; by eapply bound_lookup..|].
  cbn. eauto.
Qed.

(** A node returns from its block when its pointers are in range; a gain
    node, in addition, when the block is short enough for its loop test,
    its input is bound, and its input is not its own output buffer.  The
    nodes that are not oscillators come back unchanged. *)
Lemma Node_process_ok k n (m : @Node.t sample_type) inputs outputs st :
  shaped k n st -> Forall (fun p => p < k)%nat outputs -> bound k inputs ->
  (forall g, m = Node.Gain g ->
     (N.of_nat n < 2 ^ 32 - GainModule.vector_size)%N
     /\ inputs !! 0%nat <> Some None
     /\ forall output, head outputs = Some output ->
          inputs !! 0%nat <> Some (Some output)) ->
  exists m' st',
    Node.process sampleRate m inputs outputs n st = Ok (m', st')
    /\ shaped k n st'
    /\ (Node.isOscillator m = false -> m' = m).
Proof.
  intros Hst Hout Hin Hgain. destruct m as [g|o|o|o|c]; cbn.
  - destruct (Hgain g eq_refl) as (Hn & Hbound & Halias).
    unfold GainModule.process.
    destruct inputs as [|input inputs]; [cbn; eauto 10|].
    destruct outputs as [|output outputs]; [cbn; eauto 10|].
    destruct (decide (n = 0%nat)); [cbn; eauto 10|].
    destruct input as [input|]; [|done].
    destruct (decide (input = output)) as [->|Hne];
      [by destruct (Halias output eq_refl)|].
    apply Forall_cons in Hout as [Hout _]. apply Forall_cons in Hin as [Hin _].
    destruct (multiply_ok k n st input output (GainModule.m_gain g))
      as (st' & -> & Hst'); [done|by apply Hin|done|done|].
    cbn. eauto 10.
  - destruct (Oscillator_process_ok k n Oscillator.sawWave o inputs outputs st)
      as (o' & st' & -> & Hst'); [done..|]. cbn. by eexists _, _.
  - destruct (Oscillator_process_ok k n Oscillator.triangleWave o inputs outputs st)
      as (o' & st' & -> & Hst'); [done..|]. cbn. by eexists _, _.
  - destruct (Oscillator_process_ok k n Oscillator.pulseWave o inputs outputs st)
      as (o' & st' & -> & Hst'); [done..|]. cbn. by eexists _, _.
  - unfold ConstSource.process.
    destruct outputs as [|output outputs]; [cbn; eauto 10|].
    apply Forall_cons in Hout as [Hout _].
    destruct (fill_ok k n n st output 0 (ConstSource.value c))
      as (st' & -> & Hst'); [done|done|lia|].
    cbn. eauto 10.
Qed.

Lemma gatherInputs_bound keys conns name (inputs0 inputs : list (option ptr)) :
  bound (length keys) inputs0 ->
  gatherInputs keys conns name inputs0 = Ok inputs ->
  bound (length keys) inputs.
Proof.
  revert inputs0. induction conns as [|c conns IH]; intros inputs0 Hb; cbn.
  { by intros [= <-]. }
  destruct (String.eqb _ _); [|by apply IH].
  destruct (find_index _ _) as [b|] eqn:Eb; [|by apply IH].
  unfold store_at. destruct (decide _); [|done]. cbn. apply IH.
  apply Forall_insert; [done|]. intros p [= <-]. by eapply find_index_lt.
Qed.

Lemma producers_nonempty keys conns name slot (c : Connection) :
  c ∈ conns -> toModule c = name -> inputIndex c = slot ->
  fromModule c ∈ keys ->
  last (producers keys conns name slot) <> None.
Proof.
  intros Hc Hto Hslot [b Eb]%find_index_Some. rewrite last_None.
  intros Hnil. assert (Hb : b ∈ producers keys conns name slot).
  { apply list_elem_of_omap. exists c. split; [done|].
    unfold offers. by rewrite decide_True. }
  rewrite Hnil in Hb. by apply elem_of_nil in Hb.
Qed.

(** The buffer that [process] binds to an input slot is the buffer of the
    source of one of the connections into that slot. *)
Lemma producers_last_source keys conns name slot (b : ptr) :
  last (producers keys conns name slot) = Some b ->
  exists c : Connection,
    c ∈ conns /\ toModule c = name /\ inputIndex c = slot
    /\ find_index (fromModule c) keys = Some b.
Proof.
  intros (l & El)%last_Some.
  assert (Hb : b ∈ producers keys conns name slot).
  { rewrite El. apply elem_of_app. right. by left. }
  apply list_elem_of_omap in Hb as (c & Hc & Eo). unfold offers in Eo.
  destruct (decide _) as [[Hto Hslot]|]; [|done]. by exists c.
Qed.

Lemma processModules_ok keys conns n (todo : list (string * @Node.t sample_type)) st :
  shaped (length keys) n st ->
  (N.of_nat n < 2 ^ 32 - GainModule.vector_size)%N ->
  (forall c : Connection, c ∈ conns -> fromModule c <> toModule c) ->
  (forall name m, (name, m) ∈ todo ->
     name ∈ keys
     /\ (forall c, c ∈ conns -> toModule c = name -> fromModule c ∈ keys ->
                   (inputIndex c < Node.getNumInputs m)%nat)
     /\ (forall g, m = Node.Gain g ->
           exists c, c ∈ conns /\ toModule c = name /\ inputIndex c = 0%nat
                     /\ fromModule c ∈ keys)) ->
  exists done' st',
    processModules (H0 := node_class) keys conns n todo st = Ok (done', st')
    /\ shaped (length keys) n st'
    /\ ((forall name m, (name, m) ∈ todo -> Node.isOscillator m = false) ->
        done' = todo).
Proof.
  intros Hst Hn Hloop. revert st Hst.
  induction todo as [|[name m] todo IH]; intros st Hst Htodo; cbn.
  { eauto. }
  destruct (Htodo name m) as (Hname & Hrange & Hgain); [by left|].
  destruct (gatherInputs_last keys conns name
              (replicate (Node.getNumInputs m) None))
    as (inputs & E & Hlen & Hslot).
  { by rewrite length_replicate. }
  rewrite length_replicate in Hlen.
  unfold processModule. cbn [UGen.getNumInputs UGen.getNumOutputs UGen.process
                              Node.ugen].
  rewrite E. cbn [mbind Outcome_bind].
  destruct (find_index_Some name keys Hname) as [j Ej]. rewrite Ej.
  cbn [default from_option id].
  destruct (Node_process_ok (length keys) n m inputs
              (replicate (Node.getNumOutputs m) j) st)
    as (m' & st' & -> & Hst' & Hsame).
  - done.
  - apply Forall_replicate. by eapply find_index_lt.
  - eapply gatherInputs_bound; [|exact E].
    apply Forall_replicate. by intros p [=].
  - intros g ->. split; [done|].
    assert (Hzero : inputs !! 0%nat
                    = Some (from_option Some None
                              (last (producers keys conns name 0)))).
    { apply (Hslot 0%nat None), lookup_replicate_2.
      cbn; unfold GainModule.getNumInputs; lia. }
    rewrite Hzero.
    destruct (last (producers keys conns name 0)) as [b|] eqn:Elast;
      cbn [from_option].
    + split; [done|]. intros output Hhead [= ->]. cbn in Hhead.
      injection Hhead as <-.
      apply producers_last_source in Elast as (c & Hc & Hto & _ & Ec).
      apply find_index_lookup in Ec. apply find_index_lookup in Ej.
      apply (Hloop c Hc). congruence.
    + destruct (Hgain g eq_refl) as (c & Hc & Hto & Hi & Hfrom).
      by eapply producers_nonempty in Elast.
  - cbn [mbind Outcome_bind].
    destruct (IH st' Hst') as (rest & st'' & -> & Hst'' & Hrest).
    { intros name' m'' Hin. apply Htodo. by right. }
    cbn. eexists _, _. split; [done|]. split; [done|].
    intros Hno. rewrite Hsame by (apply (Hno name); by left).
    rewrite Hrest; [done|]. intros name' m'' Hin. apply (Hno name'). by right.
Qed.

(** C2, as the code has it: [process] has no cycle detection and raises no
    cycle error.  On every graph of these nodes, cyclic or not, it throws
    nothing.  On a graph without oscillators (whose code depends on the
    build) it also returns normally, cyclic or not, when the input indices
    of the connections are in range, the input of every gain node is
    connected, no connection leads from a module to itself, and
    [numFrames] is below [2^32 - 8]: it walks the module table once and
    leaves one buffer of [numFrames] samples per module and the modules
    and the connections it started with. *)
Theorem process_has_no_cycle_check
    (s : @ModularSystem.t sample_type (@Node.t sample_type)) (numFrames : nat) :
  (forall e, process (H0 := node_class) s numFrames <> Throw e)
  /\ (inputsInRange s -> gainsBound s -> noSelfLoop s -> noOscillator s ->
      (N.of_nat numFrames < 2 ^ 32 - GainModule.vector_size)%N ->
      exists s',
        process (H0 := node_class) s numFrames = Ok s'
        /\ m_modules s' = m_modules s
        /\ m_connections s' = m_connections s
        /\ shaped (length (m_modules s)) numFrames (m_audioBuffers s')).
Proof.
  split.
  { apply (process_never_throws (H0 := node_class)).
    intros. apply Node_process_not_Throw. }
  intros Hrange Hgains Hloop Hnoosc Hn. unfold process.
  set (buffers := resize numFrames (of_Z 0) <$> _).
  assert (Hk : length (names s) = length (m_modules s)).
  { unfold names. by rewrite length_fmap. }
  destruct (processModules_ok (names s) (m_connections s) numFrames
              (m_modules s) buffers) as (modules & st' & E & Hst' & Hsame).
  - rewrite Hk. split.
    + unfold buffers. by rewrite length_fmap, length_resize.
    + unfold buffers. apply Forall_fmap, Forall_true. intros buf. cbn.
      by rewrite length_resize.
  - done.
  - exact Hloop.
  - intros name m Hin.
    assert (Hname : name ∈ names s).
    { unfold names. by apply (list_elem_of_fmap_2' fst _ (name, m)). }
    split; [done|]. split.
    + intros c Hc <- Hfrom. by apply (Hrange c m).
    + intros g ->. by apply (Hgains name g).
  - rewrite E. cbn. eexists. split; [done|]. cbn.
    rewrite <- Hk. repeat split; [|apply Hst'..]. by apply Hsame.
Qed.
End BlockRuns.

(** ** Concrete runs *)

Section ConcreteInputs.
Import ModularSystem Examples.
Local Open Scope Q_scope.

(** The example graphs are reachable through the engine's own operations. *)
Example fanIn_is_built_by_the_api :
  (s ← addModule ModularSystem.init "c" gain;
   s ← addModule s "b" (constant (4 # 10));
   s ← addModule s "a" (constant (3 # 10));
   s ← connect s "a" 0 "c" 0;
   connect s "b" 0 "c" 0) = Ok fanIn.
Proof. reflexivity. Qed.

Example cycle_is_built_by_the_api :
  (s ← addModule ModularSystem.init "b" gain;
   s ← addModule s "a" gain;
   s ← connect s "a" 0 "b" 0;
   connect s "b" 0 "a" 0) = Ok cycle.
Proof. reflexivity. Qed.

(** C1 does not hold of the code.  In [fanIn], ["a"] emits 0.3 and ["b"] emits 0.4
    into input 0 of ["c"].  When ["c"] is processed its slot is bound to
    buffer 1, the buffer of ["b"], alone; the sample it receives is 0.4
    and not 0.3 + 0.4, and with gain 1 it outputs 0.4. *)
Lemma fanIn_input_is_not_the_sum :
  processModules (names fanIn) (m_connections fanIn) 1
    [("a", constant (3 # 10)); ("b", constant (4 # 10))] [[0]; [0]; [0]]
  = Ok ([("a", constant (3 # 10)); ("b", constant (4 # 10))],
        [[3 # 10]; [4 # 10]; [0]])
  /\ gatherInputs (names fanIn) (m_connections fanIn) "c" [None]
     = Ok [Some 1%nat]
  /\ load [[3 # 10]; [4 # 10]; [0]] 1%nat 0 = Ok (4 # 10)
  /\ ~ (4 # 10 == (3 # 10) + (4 # 10))
  /\ process fanIn 1
     = Ok {| m_modules := m_modules fanIn;
             m_connections := m_connections fanIn;
             m_audioBuffers := [[3 # 10]; [4 # 10]; [4 # 10]] |}.
Proof. repeat split; try reflexivity. intros E. vm_compute in E. discriminate. Qed.

(** The same with oscillators as producers, for a block of one sample:
    ["c"] outputs -0.4, the sample of ["b"], and not -0.3 + -0.4. *)
Example sawFanIn_input_is_not_the_sum :
  exists s',
    process sawFanIn 1 = Ok s'
    /\ Forall2 (Forall2 Qeq) (m_audioBuffers s')
         [[- (3 # 10)]; [- (4 # 10)]; [- (4 # 10)]].
Proof. eexists. split; [reflexivity|]. repeat constructor. Qed.

(** A constant 0.5 through a gain of 2 gives 1 at each of 8 samples. *)
Example srcIntoGain_outputs_one :
  exists s',
    process srcIntoGain 8 = Ok s'
    /\ m_audioBuffers s' !! 1%nat = Some (replicate 8 (2 # 2))
    /\ 2 # 2 == 1.
Proof. eexists. by repeat split. Qed.

(** [reset] leaves [tuned] at 220 Hz and half amplitude, not at the
    defaults 440 and 1. *)
Example reset_keeps_tuning :
  Oscillator.reset tuned = Oscillator.mk 220 (1 # 2) 0
  /\ Oscillator.init (sample_type := Q) = Oscillator.mk 440 1 0.
Proof. split; reflexivity. Qed.

(** C2 does not hold of the code.  [cycle] holds the connections a -> b and
    b -> a; [process] returns normally, with no error of any kind. *)
Lemma cycle_is_processed_without_error :
  process cycle 2
  = Ok {| m_modules := m_modules cycle;
          m_connections := m_connections cycle;
          m_audioBuffers := [[0; 0]; [0; 0]] |}.
Proof. reflexivity. Qed.

(** C3 does not hold of the code.  A gain node has one input and one output, yet
    [connect] accepts output index 5 and input index 7 and appends the
    connection. *)
Lemma connect_accepts_indices_out_of_range :
  UGen.getNumOutputs gain = 1%nat
  /\ UGen.getNumInputs gain = 1%nat
  /\ connect pair "a" 5 "b" 7
     = Ok {| m_modules := m_modules pair;
             m_connections := [mkConnection "a" 5 "b" 7];
             m_audioBuffers := [] |}
  /\ m_connections pair = [].
Proof. repeat split. Qed.

(** The connection accepted above makes the next [process] write outside
    the input vector of ["b"]. *)
Example out_of_range_connection_breaks_process :
  (s ← connect pair "a" 5 "b" 7; process s 2) = Undefined.
Proof. reflexivity. Qed.

(** C4 does not hold of the code.  Setting the frequency to -5 returns no error to
    the caller: with assertions enabled the program is aborted, and with
    [NDEBUG] the value is stored. *)
Lemma negative_frequency_is_not_reported :
  Oscillator.setParameter false Oscillator.init "frequency" (-5) = Abort
  /\ Oscillator.setParameter true Oscillator.init "frequency" (-5)
     = Ok (Oscillator.mk (-5) 1 0).
Proof. split; reflexivity. Qed.

(** C5 does not hold of the code.  At 48 kHz, an oscillator of frequency 440 whose
    frequency-modulation input holds -1000 leaves phase 0 for a negative
    phase; an oscillator of frequency 96000, with no modulation, leaves
    phase 0 for exactly one period, which is outside [[0, period)]; and the
    phase accumulator of period 1 steps from 0 by -1/4 to -1/4. *)
Lemma phase_leaves_the_period :
  (exists st' phase',
     Oscillator.scalarStep Oscillator.sawWave [[0]; [-1000]] 0%nat (Some 1%nat) None
       0 440 1 48000 0 = Ok (st', phase')
     /\ phase' < 0)
  /\ ~ (Oscillator.advancePhase 0 96000 48000 < twoPiConstant)
  /\ (Phasor.computeSample (sample_type := Q) 1 0 (-1 # 4)).1 < 0.
Proof.
  split; [|split].
  - eexists _, _. split; [reflexivity|]. reflexivity.
  - intros E. vm_compute in E. discriminate.
  - reflexivity.
Qed.

(** C6 does not hold of the code.  For a block of 3 samples the scalar mode writes
    three samples and advances the phase to 3/4, the unrolled mode writes
    nothing and leaves the phase at 0. *)
Lemma perform8_skips_a_short_block :
  exists p1 out1,
    Phasor.perform 1 quarterPhasor [0; 0; 0] 3 = Ok (p1, out1)
    /\ Phasor.perform8 1 quarterPhasor [0; 0; 0] 3
       = Ok (quarterPhasor, [0; 0; 0])
    /\ Phasor.phase_ p1 == 3 # 4
    /\ ~ (Phasor.phase_ p1 == Phasor.phase_ quarterPhasor)
    /\ Forall2 Qeq out1 [1 # 4; 1 # 2; 3 # 4].
Proof.
  eexists _, _. split; [reflexivity|]. split; [reflexivity|].
  split; [reflexivity|]. split.
  - intros E. vm_compute in E. discriminate.
  - repeat constructor.
Qed.

(** C8 does not hold of the code.  In [twoIntoY] the tuple (x, 0, y, 0) is already
    connected, before (z, 0, y, 0).  Connecting it again and disconnecting
    it erases the earlier copy: the list comes back in another order, and
    input 0 of ["y"], which was bound to the buffer of ["z"], is now bound
    to the buffer of ["x"]. *)
Lemma reconnecting_reorders_the_list :
  exists s',
    connect twoIntoY "x" 0 "y" 0 = Ok s'
    /\ m_connections (disconnect s' "x" 0 "y" 0)
       = [mkConnection "z" 0 "y" 0; mkConnection "x" 0 "y" 0]
    /\ m_connections (disconnect s' "x" 0 "y" 0) <> m_connections twoIntoY
    /\ gatherInputs (names twoIntoY) (m_connections twoIntoY) "y" [None]
       = Ok [Some 1%nat]
    /\ gatherInputs (names twoIntoY)
         (m_connections (disconnect s' "x" 0 "y" 0)) "y" [None]
       = Ok [Some 0%nat].
Proof. eexists. repeat split; try reflexivity. discriminate. Qed.
End ConcreteInputs.

(** ** The theorems at concrete inputs *)

Section Instances.
Import ModularSystem Examples.
Local Open Scope Q_scope.

Lemma process_binds_last_connection_witness :
  exists inputs : list (option ptr),
    length inputs = 1%nat
    /\ (forall slot, (slot < 1)%nat ->
          inputs !! slot
          = Some (last (Binding.producers ["a"; "b"; "c"]
                          (m_connections fanIn) "c" slot)))
    /\ processModule ["a"; "b"; "c"] (m_connections fanIn) 1 "c" gain
         [[3 # 10]; [4 # 10]; [0]]
       = UGen.process gain inputs [2%nat] 1 [[3 # 10]; [4 # 10]; [0]].
Proof.
  refine (process_binds_last_connection ["a"; "b"; "c"] (m_connections fanIn)
            1 "c" gain [[3 # 10]; [4 # 10]; [0]] _).
  intros c Hc _ _. cbn in Hc.
  apply elem_of_cons in Hc as [->|Hc]; [vm_compute; lia|].
  apply elem_of_cons in Hc as [->|Hc]; [vm_compute; lia|].
  by apply elem_of_nil in Hc.
Defined.

Lemma process_has_no_cycle_check_witness :
  (forall e, process cycle 2 <> Throw e)
  /\ exists s',
       process cycle 2 = Ok s'
       /\ m_modules s' = m_modules cycle
       /\ m_connections s' = m_connections cycle
       /\ Graph.shaped 2 2 (m_audioBuffers s').
Proof.
  destruct (process_has_no_cycle_check false 48000 cycle 2) as [Hthrow Hruns].
  split; [exact Hthrow|]. apply Hruns.
  - intros c m Hc Hm _. cbn in Hc, Hm.
    assert (Hm' : m = gain).
    { apply elem_of_cons in Hm as [Hm|Hm]; [by injection Hm|].
      apply elem_of_cons in Hm as [Hm|Hm]; [by injection Hm|].
      by apply elem_of_nil in Hm. }
    subst m.
    apply elem_of_cons in Hc as [->|Hc]; [vm_compute; lia|].
    apply elem_of_cons in Hc as [->|Hc]; [vm_compute; lia|].
    by apply elem_of_nil in Hc.
  - intros name g Hg. cbn in Hg.
    apply elem_of_cons in Hg as [Hg|Hg].
    { injection Hg as -> _. exists (mkConnection "b" 0 "a" 0).
      repeat split; [right; left | right; left]. }
    apply elem_of_cons in Hg as [Hg|Hg].
    { injection Hg as -> _. exists (mkConnection "a" 0 "b" 0).
      repeat split; left. }
    by apply elem_of_nil in Hg.
  - intros c Hc. cbn in Hc.
    apply elem_of_cons in Hc as [->|Hc]; [done|].
    apply elem_of_cons in Hc as [->|Hc]; [done|].
    by apply elem_of_nil in Hc.
  - intros name m Hm. cbn in Hm.
    apply elem_of_cons in Hm as [Hm|Hm]; [by injection Hm as -> ->|].
    apply elem_of_cons in Hm as [Hm|Hm]; [by injection Hm as -> ->|].
    by apply elem_of_nil in Hm.
  - reflexivity.
Defined.

Lemma connect_checks_names_only_witness :
  connect pair "a" 0 "b" 0
  = Ok {| m_modules := m_modules pair;
          m_connections := [mkConnection "a" 0 "b" 0];
          m_audioBuffers := [] |}
  /\ connect pair "q" 0 "b" 0
     = Throw (runtime_error "Module 'q' does not exist.")
  /\ connect pair "a" 0 "q" 0
     = Throw (runtime_error "Module 'q' does not exist.").
Proof.
  assert (Ha : registered "a" pair) by (by left).
  assert (Hb : registered "b" pair) by (right; by left).
  assert (Hq : ~ registered "q" pair).
  { unfold registered; cbn. rewrite !not_elem_of_cons.
    repeat split; [done..|apply not_elem_of_nil]. }
  split; [|split].
  - exact (proj1 (connect_checks_names_only pair "a" 0 "b" 0) Ha Hb).
  - exact (proj1 (proj2 (connect_checks_names_only pair "q" 0 "b" 0)) Hq).
  - exact (proj2 (proj2 (connect_checks_names_only pair "a" 0 "q" 0)) Ha Hq).
Defined.

Lemma setParameter_range_is_asserted_witness :
  Oscillator.setParameter false tuned "frequency" (-5) = Abort
  /\ Oscillator.setParameter false tuned "amplitude" (-1 # 2) = Abort
  /\ Oscillator.setParameter false tuned "frequency" 880
     = Ok (Oscillator.mk 880 (1 # 2) 1)
  /\ Oscillator.setParameter false tuned "amplitude" 0
     = Ok (Oscillator.mk 220 0 1)
  /\ Oscillator.setParameter false tuned "bogus" 1
     = Throw (invalid_argument "Unknown parameter: bogus").
Proof.
  split; [|split; [|split; [|split]]].
  - apply (proj1 (setParameter_range_is_asserted false tuned (-5))).
    vm_compute. discriminate.
  - apply (proj1 (proj2 (setParameter_range_is_asserted false tuned (-1 # 2)))).
    reflexivity.
  - apply (proj1 (proj2 (proj2 (setParameter_range_is_asserted false tuned 880)))).
    reflexivity.
  - apply (proj1 (proj2 (proj2 (proj2
             (setParameter_range_is_asserted false tuned 0))))).
    vm_compute. discriminate.
  - apply (proj2 (proj2 (proj2 (proj2
             (setParameter_range_is_asserted false tuned 1))))).
    unfold Oscillator.getParameterNames. rewrite !not_elem_of_cons.
    repeat split; [done..|apply not_elem_of_nil].
Defined.

Lemma phase_stays_in_period_for_small_forward_steps_witness :
  0 <= Oscillator.advancePhase 6 440 48000 < twoPiConstant
  /\ 0 <= (Phasor.computeSample (sample_type := Q) 1 (3 # 4) (1 # 2)).1
       < Phasor.wrap 1.
Proof.
  split.
  - apply (proj1 phase_stays_in_period_for_small_forward_steps 6 440 48000).
    + split; [vm_compute; discriminate | reflexivity].
    + reflexivity.
    + split; [vm_compute; discriminate | reflexivity].
  - apply (proj2 phase_stays_in_period_for_small_forward_steps 1%nat
             (3 # 4) (1 # 2)).
    + lia.
    + vm_compute. discriminate.
Defined.

Lemma perform8_is_perform_on_whole_groups_witness :
  Phasor.perform8 1 quarterPhasor (replicate 16 0) 16
  = Phasor.perform 1 quarterPhasor (replicate 16 0) 16.
Proof.
  apply (proj2 (perform8_is_perform_on_whole_groups (sample_type := Q) 1
                  quarterPhasor (replicate 16 0) 16)).
  reflexivity.
Defined.

Lemma polyBlep_cases_witness :
  Oscillator.polyBlep (1 # 10) (1 # 4)
  == (1 # 10) / (1 # 4) + (1 # 10) / (1 # 4)
     - ((1 # 10) / (1 # 4)) * ((1 # 10) / (1 # 4)) - 1.
Proof.
  apply (proj1 (polyBlep_cases (1 # 10) (1 # 4)
                  (conj (Qle_bool_imp_le 0 (1 # 10) eq_refl) eq_refl)
                  (conj eq_refl eq_refl))).
  reflexivity.
Defined.

Lemma connect_then_disconnect_witness :
  exists s',
    connect pair "a" 0 "b" 0 = Ok s'
    /\ disconnect s' "a" 0 "b" 0 = pair
    /\ disconnect pair "a" 0 "b" 0 = pair.
Proof.
  destruct (connect_then_disconnect pair "a" 0 "b" 0)
    as (s' & E & _ & _ & _ & Hback & _ & Hnoop).
  - by left.
  - right. by left.
  - exists s'. split; [exact E|].
    split; [apply Hback | apply Hnoop]; apply not_elem_of_nil.
Defined.

Lemma gain_ignores_unknown_parameter_names_witness :
  GainModule.setParameter (GainModule.mk (3 # 1)) "bogus" 7 = GainModule.mk (3 # 1)
  /\ GainModule.getParameter (GainModule.mk (3 # 1)) "bogus" = 0
  /\ Node.setParameter false (Node.Gain (GainModule.mk (3 # 1))) "bogus" 7
     = Ok (Node.Gain (GainModule.mk (3 # 1)))
  /\ Node.getParameter (Node.Gain (GainModule.mk (3 # 1))) "bogus" = Ok 0
  /\ ("bogus" ∉ Oscillator.getParameterNames ->
      Oscillator.setParameter false tuned "bogus" 7
      = Throw (invalid_argument ("Unknown parameter: " ++ "bogus"))
      /\ Oscillator.getParameter tuned "bogus"
         = Throw (invalid_argument ("Unknown parameter: " ++ "bogus"))).
Proof.
  refine (gain_ignores_unknown_parameter_names false (GainModule.mk (3 # 1))
            tuned "bogus" 7 _).
  discriminate.
Defined.
End Instances.

(** * Further properties of the code *)

(** ** Phase accumulator: buffer bounds and block composition *)

Section PhasorBlocks.
Context {sample_type internal_type : Type}.
Context `{SampleOps internal_type}.
Context `{StaticCast internal_type sample_type}.
Variable wrap_arg : nat.

Abbreviation trajectory :=
  (Phasor.trajectory (sample_type := sample_type) wrap_arg).

Lemma perform_loop_trajectory n (out : list sample_type) k phase phase_inc :
  (k <= length out)%nat ->
  Phasor.perform_loop wrap_arg n out k phase phase_inc
  = if decide (k + n <= length out)%nat
    then Ok ((trajectory n phase phase_inc).1,
             take k out ++ (trajectory n phase phase_inc).2
               ++ drop (k + n) out)
    else Undefined.
Proof.
  revert out k phase. induction n as [|n IH]; intros out k phase Hk.
  - cbn. rewrite decide_True by lia. by rewrite Nat.add_0_r, take_drop.
  - cbn [Phasor.perform_loop Phasor.trajectory].
    destruct (Phasor.computeSample wrap_arg phase phase_inc) as [phase1 s].
    unfold store_at. destruct (decide (k < length out)%nat) as [Hlt|Hge].
    + cbn [mbind Outcome_bind]. rewrite IH by (rewrite length_insert; lia).
      rewrite length_insert.
      destruct (trajectory n phase1 phase_inc) as [phase2 rest]. cbn [fst snd].
      destruct (decide (S k + n <= length out)%nat) as [Hfit|Hno].
      * rewrite decide_True by lia. do 2 f_equal.
        rewrite (take_S_r _ _ s) by (by apply list_lookup_insert_eq).
        rewrite take_insert_ge by lia. rewrite drop_insert_lt by lia.
        rewrite <- (assoc_L (++)). cbn.
        by replace (k + S n)%nat with (S k + n)%nat by lia.
      * by rewrite decide_False by lia.
    + cbn. by rewrite decide_False by lia.
Qed.

(** X1: [perform(out, n)] writes exactly the first [n] elements of [out]:
    with [n] at most the size of the buffer it returns, the buffer holds
    the [n] samples of the phase trajectory followed by its old elements
    from index [n] on, and the stored phase is the end of the trajectory;
    with [n] larger it writes past the end of the buffer. *)
Theorem perform_writes_first_n
    (p : @Phasor.t internal_type) (out : list sample_type) (n : nat) :
  Phasor.perform wrap_arg p out n
  = if decide (n <= length out)%nat
    then Ok (Phasor.set_phase p
               (trajectory n (Phasor.phase_ p) (Phasor.phase_inc_ p)).1,
             (trajectory n (Phasor.phase_ p) (Phasor.phase_inc_ p)).2
               ++ drop n out)
    else Undefined.
Proof.
  unfold Phasor.perform. rewrite perform_loop_trajectory by lia. cbn [Nat.add].
  by destruct (decide _).
Qed.

Lemma trajectory_length n phase phase_inc :
  length (trajectory n phase phase_inc).2 = n.
Proof.
  revert phase. induction n as [|n IH]; intros phase; [done|].
  cbn [Phasor.trajectory].
  destruct (Phasor.computeSample _ _ _) as [phase1 s].
  specialize (IH phase1). destruct (trajectory n phase1 phase_inc). cbn in *.
  by rewrite IH.
Qed.

Lemma trajectory_add a b phase phase_inc :
  trajectory (a + b) phase phase_inc
  = ((trajectory b (trajectory a phase phase_inc).1 phase_inc).1,
     (trajectory a phase phase_inc).2
       ++ (trajectory b (trajectory a phase phase_inc).1 phase_inc).2).
Proof.
  revert phase. induction a as [|a IH]; intros phase.
  - cbn. by destruct (trajectory b phase phase_inc).
  - cbn [Nat.add Phasor.trajectory].
    destruct (Phasor.computeSample _ _ _) as [phase1 s]. rewrite IH.
    destruct (trajectory a phase1 phase_inc) as [phase2 l]. cbn [fst snd].
    by destruct (trajectory b phase2 phase_inc).
Qed.

(** X2: a block of the phase accumulator can be cut anywhere: filling a
    buffer in one call of [perform] gives the same samples and the same
    final state as filling its first part and then, from the state that
    leaves, its second part. *)
Theorem perform_in_two_blocks
    (p : @Phasor.t internal_type) (out1 out2 : list sample_type) (b : nat) :
  Phasor.perform wrap_arg p (out1 ++ out2) (length out1 + b)
  = '(p1, out1') ← Phasor.perform wrap_arg p out1 (length out1);
    '(p2, out2') ← Phasor.perform wrap_arg p1 out2 b;
    Ok (p2, out1' ++ out2').
Proof.
  unfold Phasor.perform.
  rewrite (perform_loop_trajectory _ (out1 ++ out2)) by lia.
  rewrite (perform_loop_trajectory _ out1) by lia.
  cbn [Nat.add firstn app]. rewrite (decide_True (P := (length out1 <= length out1)%nat)) by lia.
  cbn [mbind Outcome_bind Phasor.set_phase Phasor.phase_ Phasor.phase_inc_].
  rewrite perform_loop_trajectory by lia. cbn [Nat.add firstn app].
  rewrite length_app, trajectory_add. cbn [fst snd].
  destruct (decide (b <= length out2)%nat) as [Hb|Hb].
  - destruct (decide (length out1 + b <= length out1 + length out2)%nat);
      [|lia]. cbn. do 2 f_equal.
    rewrite (drop_ge out1) by lia. rewrite drop_app_add. rewrite (right_id_L [] (++)).
    by rewrite <- (assoc_L (++)).
  - destruct (decide (length out1 + b <= length out1 + length out2)%nat);
      [lia|done].
Qed.

End PhasorBlocks.

Section PhasorExact.
Local Open Scope Q_scope.

Abbreviation Qtrajectory := (Phasor.trajectory (sample_type := Q) (internal_type := Q)).

Lemma Qtrunc_nonneg (x : Q) : 0 <= x -> (0 <= Qtrunc x)%Z.
Proof.
  intros Hx. unfold Qtrunc. rewrite (proj2 (Qle_bool_iff 0 x) Hx).
  change 0%Z with (Qfloor 0). by apply Qfloor_resp_le.
Qed.

Lemma trajectory_exact (wrap_arg n : nat) (phase phase_inc : Q) :
  (0 < wrap_arg)%nat -> 0 <= phase < Phasor.wrap wrap_arg -> 0 <= phase_inc ->
  0 <= (Qtrajectory wrap_arg n phase phase_inc).1 < Phasor.wrap wrap_arg
  /\ Forall (fun s => 0 <= s < Phasor.wrap wrap_arg)
       (Qtrajectory wrap_arg n phase phase_inc).2
  /\ exists k : Z,
       (0 <= k)%Z
       /\ (Qtrajectory wrap_arg n phase phase_inc).1
          == phase + inject_Z (Z.of_nat n) * phase_inc
             - inject_Z k * Phasor.wrap wrap_arg.
Proof.
  intros Hw. revert phase. induction n as [|n IH]; intros phase Hphase Hinc.
  { cbn [Phasor.trajectory fst snd]. split; [done|]. split; [constructor|].
    exists 0%Z. split; [done|]. cbn [Z.of_nat]. ring. }
  cbn [Phasor.trajectory].
  assert (Hwrap : 0 < Phasor.wrap (internal_type := Q) wrap_arg).
  { unfold Phasor.wrap. cbn [of_Z Q_SampleOps].
    change 0 with (inject_Z 0). rewrite <- Zlt_Qlt. lia. }
  unfold Phasor.computeSample, Phasor.phasorComputeSample.
  cbn [fadd fmod Q_SampleOps]. unfold static_cast, StaticCast_id.
  set (phase1 := Qfmod (phase + phase_inc) (Phasor.wrap wrap_arg)).
  assert (Hsum : 0 <= phase + phase_inc) by lra.
  assert (H1 : 0 <= phase1 < Phasor.wrap wrap_arg) by (by apply Qfmod_range).
  destruct (IH phase1 H1 Hinc) as (Hfin & Hall & k & Hk & Eq).
  destruct (Qtrajectory wrap_arg n phase1 phase_inc) as [phase2 rest].
  cbn [fst snd] in *. split; [done|]. split; [by constructor|].
  exists (Qtrunc ((phase + phase_inc) / Phasor.wrap wrap_arg) + k)%Z. split.
  - assert (0 <= (phase + phase_inc) / Phasor.wrap wrap_arg).
    { apply Qle_shift_div_l; [done|]. by rewrite Qmult_0_l. }
    pose proof (Qtrunc_nonneg _ H). lia.
  - rewrite Eq. unfold phase1, Qfmod. rewrite Nat2Z.inj_succ. unfold Z.succ.
    rewrite !inject_Z_plus. change (inject_Z 1) with 1. ring.
Qed.

(** X4: on exact rationals, with a positive period [wrap_arg], a phase in
    [[0, wrap_arg)] and an increment that is not negative, [perform(out, n)]
    on a buffer of at least [n] elements returns; the phase it leaves is in
    [[0, wrap_arg)] and is the old phase plus [n] increments minus a whole
    number of periods; the [n] samples written are in [[0, wrap_arg)] and
    the rest of the buffer is as before. *)
Theorem perform_phase_trajectory
    (wrap_arg : nat) (p : @Phasor.t Q) (out : list Q) (n : nat) :
  (0 < wrap_arg)%nat ->
  0 <= Phasor.phase_ p < Phasor.wrap wrap_arg ->
  0 <= Phasor.phase_inc_ p ->
  (n <= length out)%nat ->
  exists (p' : @Phasor.t Q) (out' : list Q),
    Phasor.perform wrap_arg p out n = Ok (p', out')
    /\ 0 <= Phasor.phase_ p' < Phasor.wrap wrap_arg
    /\ (exists k : Z,
          (0 <= k)%Z
          /\ Phasor.phase_ p'
             == Phasor.phase_ p + inject_Z (Z.of_nat n) * Phasor.phase_inc_ p
                - inject_Z k * Phasor.wrap wrap_arg)
    /\ length out' = length out
    /\ (forall i s, (i < n)%nat -> out' !! i = Some s ->
          0 <= s < Phasor.wrap wrap_arg)
    /\ drop n out' = drop n out.
Proof.
  intros Hw Hphase Hinc Hn.
  destruct (trajectory_exact wrap_arg n (Phasor.phase_ p) (Phasor.phase_inc_ p))
    as (Hfin & Hall & Hk); [done..|].
  pose proof (trajectory_length (sample_type := Q) wrap_arg n
                (Phasor.phase_ p) (Phasor.phase_inc_ p)) as Hlen.
  unfold Phasor.perform. rewrite perform_loop_trajectory by lia.
  cbn [Nat.add firstn app]. rewrite decide_True by done.
  cbn [mbind Outcome_bind].
  change (take 0 out) with (@nil Q). cbn [app].
  eexists _, _. split; [done|]. cbn [Phasor.set_phase Phasor.phase_].
  split; [done|]. split; [done|]. split; [|split].
  - rewrite length_app, length_drop, Hlen. lia.
  - intros i s Hi Hs. rewrite lookup_app_l in Hs by lia.
    by apply (Forall_lookup_1 _ _ _ _ Hall Hs).
  - by rewrite drop_app_length' by done.
Qed.
End PhasorExact.

(** ** Phase accumulator: the fixed-size modes *)

Section PhasorFixed.
Context {sample_type internal_type : Type}.
Context `{SampleOps internal_type}.
Context `{StaticCast internal_type sample_type}.
Context `{StaticCast sample_type internal_type}.
Variable wrap_arg : nat.

(** X3: the compile-time sized modes [perform<n>(out)] and
    [perform<n>(in, out)], which unroll the template recursion
    [phasorPerform<n>], do the same as the run-time loops [perform(out, n)]
    and [perform(in, out, n)]. *)
Theorem performFixed_is_perform (p : @Phasor.t internal_type)
    (inb out : list sample_type) (n : nat) :
  Phasor.performFixed wrap_arg n p out = Phasor.perform wrap_arg p out n
  /\ Phasor.performFixedIn wrap_arg n p inb out
     = Phasor.performIn wrap_arg p inb out n.
Proof.
  unfold Phasor.performFixed, Phasor.perform, Phasor.performFixedIn,
    Phasor.performIn.
  by rewrite phasorPerform_perform_loop, phasorPerformIn_performIn_loop.
Qed.
End PhasorFixed.

(** ** Oscillator parameters *)

Section OscillatorParameters.
Context {sample_type : Type} `{SampleOps sample_type}.
Variable ndebug : bool.

Implicit Types (o : @Oscillator.t sample_type) (p : @PulseOsc.t sample_type).

Lemma setFrequency_Ok_inv o v o' :
  Oscillator.setFrequency ndebug o v = Ok o' ->
  o' = Oscillator.mk v (Oscillator.m_amplitude o) (Oscillator.m_phase o).
Proof.
  unfold Oscillator.setFrequency.
  by intros (_ & _ & [= <-])%bind_Ok_inv.
Qed.

Lemma setAmplitude_Ok_inv o v o' :
  Oscillator.setAmplitude ndebug o v = Ok o' ->
  o' = Oscillator.mk (Oscillator.m_frequency o) v (Oscillator.m_phase o).
Proof.
  unfold Oscillator.setAmplitude.
  by intros (_ & _ & [= <-])%bind_Ok_inv.
Qed.

(** X5: when [Oscillator::setParameter(name, v)] returns, [getParameter]
    of the same name gives [v] back and every other parameter reads as
    before. *)
Theorem setParameter_then_getParameter o (name : string) (v : sample_type) o' :
  Oscillator.setParameter ndebug o name v = Ok o' ->
  Oscillator.getParameter o' name = Ok v
  /\ forall name' : string, name' <> name ->
       Oscillator.getParameter o' name' = Oscillator.getParameter o name'.
Proof.
  unfold Oscillator.setParameter.
  destruct (String.eqb_spec name "frequency") as [->|Hf].
  { intros ->%setFrequency_Ok_inv. split; [done|].
    intros name' Hne%String.eqb_neq. unfold Oscillator.getParameter.
    by rewrite Hne. }
  destruct (String.eqb_spec name "amplitude") as [->|Ha].
  { intros ->%setAmplitude_Ok_inv. split; [done|].
    intros name' Hne%String.eqb_neq. unfold Oscillator.getParameter.
    by rewrite Hne. }
  destruct (String.eqb_spec name "phase") as [->|Hp]; [|done].
  intros [= <-]. split; [done|].
  intros name' Hne%String.eqb_neq. unfold Oscillator.getParameter.
  by rewrite Hne.
Qed.

Lemma getParameter_known o (name : string) :
  name ∈ Oscillator.getParameterNames ->
  exists v, Oscillator.getParameter o name = Ok v.
Proof.
  unfold Oscillator.getParameterNames. rewrite !elem_of_cons.
  intros [->|[->|[->|[]%elem_of_nil]]]; by eexists.
Qed.

(** X6: [getParameterNames] lists exactly the names the accessors accept:
    [Oscillator::getParameter] returns a value for a name if and only if
    the name is listed, [Oscillator::setParameter] never raises the
    unknown-parameter error for a listed name and does for every other,
    and [PulseOsc::getParameter] returns a value exactly for the names
    [PulseOsc::getParameterNames] lists. *)
Theorem parameter_names_are_the_accepted_names o p (name : string) :
  (name ∈ Oscillator.getParameterNames
   <-> exists v, Oscillator.getParameter o name = Ok v)
  /\ (name ∈ Oscillator.getParameterNames
      <-> forall v, Oscillator.setParameter ndebug o name v
                    <> Throw (invalid_argument ("Unknown parameter: " ++ name)))
  /\ (name ∈ PulseOsc.getParameterNames
      <-> exists v, PulseOsc.getParameter p name = Ok v).
Proof.
  split; [|split].
  - split; [apply getParameter_known|].
    intros [v Hv]. destruct (decide (name ∈ Oscillator.getParameterNames)); [done|].
    by rewrite getParameter_unknown in Hv.
  - split.
    + unfold Oscillator.getParameterNames. rewrite !elem_of_cons.
      intros [->|[->|[->|[]%elem_of_nil]]] v.
      * change (Oscillator.setParameter ndebug o "frequency" v)
          with (Oscillator.setFrequency ndebug o v).
        unfold Oscillator.setFrequency, Oscillator.assert.
        by destruct ndebug, (v >? of_Z 0)%S.
      * change (Oscillator.setParameter ndebug o "amplitude" v)
          with (Oscillator.setAmplitude ndebug o v).
        unfold Oscillator.setAmplitude, Oscillator.assert.
        by destruct ndebug, (v >=? of_Z 0)%S.
      * done.
    + intros Hv. destruct (decide (name ∈ Oscillator.getParameterNames)); [done|].
      destruct (Hv (of_Z 0)). by apply setParameter_unknown.
  - unfold PulseOsc.getParameterNames, PulseOsc.getParameter.
    rewrite elem_of_app, list_elem_of_singleton.
    destruct (String.eqb_spec name "pulseWidth") as [->|Hne].
    + split; [by eexists | by right].
    + split.
      * intros [Hin|?]; [|done]. by apply getParameter_known.
      * intros [v Hv]. left.
        destruct (decide (name ∈ Oscillator.getParameterNames)); [done|].
        by rewrite getParameter_unknown in Hv.
Qed.
End OscillatorParameters.

(** ** What a block of an oscillator writes *)

Section OscillatorFrame.
Context {sample_type : Type} `{SampleOps sample_type}.
Import Graph.

Implicit Types (st : Store sample_type).

Lemma store_frame st p i (v : sample_type) st' :
  store st p i v = Ok st' ->
  length st' = length st
  /\ (forall q, q <> p -> st' !! q = st !! q)
  /\ exists buf, st !! p = Some buf /\ (i < length buf)%nat
                 /\ st' = <[p := <[i := v]> buf]> st.
Proof.
  unfold store, store_at. destruct (st !! p) as [buf|] eqn:E; [|done].
  destruct (decide _) as [Hi|]; [|done]. cbn. intros [= <-].
  split; [by rewrite length_insert|]. split.
  - intros q Hq. by rewrite list_lookup_insert_ne.
  - by exists buf.
Qed.

Lemma scalarLoop_frame wave count st output freqMod ampMod
    (phase baseFrequency baseAmplitude rate : sample_type) i st' phase' :
  Oscillator.scalarLoop wave count st output freqMod ampMod phase
    baseFrequency baseAmplitude rate i = Ok (st', phase') ->
  length st' = length st /\ (forall q, q <> output -> st' !! q = st !! q).
Proof.
  revert st phase i. induction count as [|count IH]; intros st phase i; cbn.
  { by intros [= <- <-]. }
  intros ([st1 phase1] & E1 & E2)%bind_Ok_inv.
  unfold Oscillator.scalarStep in E1.
  apply bind_Ok_inv in E1 as ([cf ca] & _ & E1).
  apply bind_Ok_inv in E1 as (st1' & Est & [= -> <-]).
  apply store_frame in Est as (Hlen & Hother & _).
  apply IH in E2 as [Hlen2 Hother2]. split; [congruence|].
  intros q Hq. rewrite Hother2, Hother; done.
Qed.

(** X7: one block of an oscillator, on [k] buffers of [n] samples with its
    first output and its bound modulation inputs among them, returns
    normally, leaves [k] buffers of [n] samples, changes no buffer other
    than its first output, and keeps its frequency and amplitude. *)
Theorem Oscillator_process_writes_only_its_output
    (k n : nat) wave (sampleRate : N) (o : @Oscillator.t sample_type)
    (inputs : list (option ptr)) (output : ptr) (outputs : list ptr) st :
  shaped k n st -> (output < k)%nat -> bound k inputs ->
  exists o' st',
    Oscillator.process wave sampleRate o inputs (output :: outputs) n st
    = Ok (o', st')
    /\ shaped k n st'
    /\ (forall q : ptr, q <> output -> st' !! q = st !! q)
    /\ Oscillator.m_frequency o' = Oscillator.m_frequency o
    /\ Oscillator.m_amplitude o' = Oscillator.m_amplitude o.
Proof.
  intros Hst Hout Hin. unfold Oscillator.process, Oscillator.processScalar.
  destruct (decide (n = 0%nat)); [by exists o, st|].
  destruct (scalarLoop_ok k n wave n st output
              (default None (inputs !! 0%nat)) (default None (inputs !! 1%nat))
              (Oscillator.getPhase o) (Oscillator.getFrequency o)
              (Oscillator.getAmplitude o) (of_Z (Z.of_N sampleRate)) 0)
    as (st' & phase' & E & Hst');
    [done|done|lia|intros p Hp; by eapply bound_lookup..|].
  rewrite E. cbn [mbind Outcome_bind].
  exists (Oscillator.setPhase o phase'), st'. split; [done|]. split; [done|].
  apply scalarLoop_frame in E as [_ Hother]. done.
Qed.
End OscillatorFrame.

Section OscillatorExact.
Local Open Scope Q_scope.
Import Graph.

Lemma advancePhase_exact (phase f sr : Q) :
  0 <= phase < twoPiConstant -> 0 < sr -> 0 <= f < sr ->
  0 <= Oscillator.advancePhase phase f sr < twoPiConstant
  /\ exists k : Z, (0 <= k <= 1)%Z
       /\ Oscillator.advancePhase phase f sr
          == phase + f * twoPiConstant / sr - inject_Z k * twoPiConstant.
Proof.
  intros [Hp0 Hp1] Hsr [Hf0 Hf1].
  pose proof (increment_range f sr Hsr Hf0 Hf1) as [Hi0 Hi1].
  unfold Oscillator.advancePhase. cbn [fadd fmul fdiv Q_SampleOps].
  split; [apply wrapPhaseScalar_range; lra|].
  unfold Oscillator.wrapPhaseScalar. cbn [fle fsub Q_SampleOps].
  destruct (Qle_bool _ _).
  - exists 1%Z. split; [lia|]. change (inject_Z 1) with 1. ring.
  - exists 0%Z. split; [lia|]. change (inject_Z 0) with 0. ring.
Qed.

Lemma scalarLoop_unmodulated_phase (wave : Q -> Q) count st output
    (phase f a sr : Q) i st' phase' :
  0 <= phase < twoPiConstant -> 0 < sr -> 0 <= f < sr ->
  Oscillator.scalarLoop wave count st output None None phase f a sr i
  = Ok (st', phase') ->
  0 <= phase' < twoPiConstant
  /\ exists k : Z, (0 <= k <= Z.of_nat count)%Z
       /\ phase' == phase + inject_Z (Z.of_nat count) * (f * twoPiConstant / sr)
                    - inject_Z k * twoPiConstant.
Proof.
  intros Hp Hsr Hf. revert st phase i Hp.
  induction count as [|count IH]; intros st phase i Hp.
  { cbn [Oscillator.scalarLoop]. intros [= <- <-]. split; [done|].
    exists 0%Z. split; [lia|]. cbn [Z.of_nat]. change (inject_Z 0) with 0. ring. }
  cbn [Oscillator.scalarLoop].
  intros ([st1 phase1] & E1 & E2)%bind_Ok_inv.
  apply scalarStep_phase in E1 as (cf & ca & Emod & ->).
  cbn in Emod. injection Emod as <- <-.
  destruct (advancePhase_exact phase f sr Hp Hsr Hf) as (Hp1 & k1 & Hk1 & Eq1).
  apply IH in E2 as (Hp2 & k2 & Hk2 & Eq2); [|done].
  split; [done|]. exists (k1 + k2)%Z. split; [lia|].
  rewrite Eq2, Eq1, Nat2Z.inj_succ, <- Z.add_1_r, !inject_Z_plus.
  change (inject_Z 1) with 1. ring.
Qed.

(** X8: on exact rationals, the scalar loop [processScalar] of an
    oscillator (the loop [process] runs in a build without AVX and SSE),
    without modulation inputs, over [n] frames of an output buffer of [n]
    samples, started with the phase in [[0, 2 pi)] and a frequency from 0
    up to, not including, the sample rate, returns with the phase again in
    [[0, 2 pi)]: the old phase plus [n] increments of
    [frequency * 2 pi / sampleRate], minus [j] periods with
    [0 <= j <= n]. *)
Theorem processScalar_phase_over_a_block
    (k n : nat) (wave : Q -> Q) (output : ptr) (st : Store Q)
    (phase frequency amplitude sampleRate : Q) :
  shaped k n st -> (output < k)%nat ->
  0 <= phase < twoPiConstant ->
  0 <= frequency < sampleRate ->
  exists st' phase',
    Oscillator.processScalar wave st output None None phase frequency
      amplitude sampleRate n
    = Ok (st', phase')
    /\ 0 <= phase' < twoPiConstant
    /\ exists j : Z, (0 <= j <= Z.of_nat n)%Z
         /\ phase'
            == phase
               + inject_Z (Z.of_nat n) * (frequency * twoPiConstant / sampleRate)
               - inject_Z j * twoPiConstant.
Proof.
  intros Hst Hout Hp Hf.
  assert (Hsr : 0 < sampleRate) by lra.
  unfold Oscillator.processScalar.
  destruct (scalarLoop_ok k n wave n st output None None
              phase frequency amplitude sampleRate 0)
    as (st' & phase' & E & _); [done|done|lia|done|done|].
  exists st', phase'. split; [exact E|].
  apply scalarLoop_unmodulated_phase in E; done.
Qed.
End OscillatorExact.

(** ** Waveforms *)

Section Waveforms.
Local Open Scope Q_scope.

Lemma Qpi_pos : 0 < Qpi.
Proof. reflexivity. Qed.

Lemma twoPi_Qpi : twoPiConstant (T := Q) == 2 * Qpi.
Proof. reflexivity. Qed.

Lemma phase_over_pi (phase : Q) :
  0 <= phase < twoPiConstant -> 0 <= phase / Qpi < 2.
Proof.
  rewrite twoPi_Qpi. intros [H0 H1]. pose proof Qpi_pos. split.
  - apply Qle_shift_div_l; [done|]. lra.
  - apply Qlt_shift_div_r; [done|]. lra.
Qed.

Lemma sawWave_range (phase : Q) :
  0 <= phase < twoPiConstant -> -1 <= Oscillator.sawWave phase < 1.
Proof.
  intros [H0 H1]%phase_over_pi. unfold Oscillator.sawWave.
  cbn [fsub fdiv of_Z piConstant Q_SampleOps]. change (inject_Z 1) with 1. lra.
Qed.

Lemma triangleWave_range (phase : Q) :
  0 <= phase < twoPiConstant -> -1 <= Oscillator.triangleWave phase <= 1.
Proof.
  intros Hp. pose proof (phase_over_pi phase Hp) as [H0 H1].
  pose proof Qpi_pos as Hpi.
  unfold Oscillator.triangleWave.
  cbn [flt fadd fsub fmul fdiv of_Z piConstant Q_SampleOps].
  change (inject_Z 2) with 2. change (inject_Z 3) with 3.
  change (inject_Z (-1)) with (-1).
  assert (E : 2 * phase / Qpi == 2 * (phase / Qpi)) by (field; lra).
  destruct (Qltb phase Qpi) eqn:Hlt; rewrite E.
  - apply Qltb_true in Hlt.
    assert (phase / Qpi < 1) by (apply Qlt_shift_div_r; lra). lra.
  - apply Qltb_false in Hlt.
    assert (1 <= phase / Qpi) by (apply Qle_shift_div_l; lra). lra.
Qed.

Lemma scaled_range (a w : Q) : 0 <= a -> -1 <= w <= 1 -> - a <= a * w <= a.
Proof.
  intros Ha [H0 H1]. split.
  - assert (0 <= a * (w + 1)) by (apply Qmult_le_0_compat; lra).
    assert (a * (w + 1) == a * w + a) by ring. lra.
  - assert (0 <= a * (1 - w)) by (apply Qmult_le_0_compat; lra).
    assert (a * (1 - w) == a - a * w) by ring. lra.
Qed.

(** X9: on exact rationals, with the phase in [[0, 2 pi)] and an amplitude
    that is not negative, [getCurrentValue] of the sawtooth and of the
    triangle oscillator lies between minus the amplitude and the amplitude,
    and that of the pulse oscillator is the amplitude in the first half of
    the period and minus the amplitude in the second. *)
Theorem getCurrentValue_within_amplitude (o : @Oscillator.t Q) :
  0 <= Oscillator.m_phase o < twoPiConstant ->
  0 <= Oscillator.m_amplitude o ->
  - Oscillator.m_amplitude o
    <= Oscillator.getCurrentValue Oscillator.sawWave o
    <= Oscillator.m_amplitude o
  /\ - Oscillator.m_amplitude o
       <= Oscillator.getCurrentValue Oscillator.triangleWave o
       <= Oscillator.m_amplitude o
  /\ (Oscillator.getCurrentValue Oscillator.pulseWave o
      == (if Qle_bool Qpi (Oscillator.m_phase o)
          then - Oscillator.m_amplitude o else Oscillator.m_amplitude o)).
Proof.
  intros Hp Ha. unfold Oscillator.getCurrentValue, Oscillator.getAmplitude,
    Oscillator.getPhase. cbn [fmul Q_SampleOps].
  split; [|split].
  - apply scaled_range; [done|]. pose proof (sawWave_range _ Hp). lra.
  - apply scaled_range; [done|]. by apply triangleWave_range.
  - unfold Oscillator.pulseWave. cbn [flt of_Z piConstant Q_SampleOps].
    unfold Qltb. destruct (Qle_bool _ _); cbn [negb].
    + change (inject_Z (-1)) with (-1). ring.
    + change (inject_Z 1) with 1. ring.
Qed.
End Waveforms.

(** ** Clamped parameters and the PolyBLEP correction *)

Section ClampedParameters.
Local Open Scope Q_scope.

Lemma clamp_range (v lo hi : Q) :
  lo <= hi ->
  lo <= clamp v lo hi <= hi
  /\ (lo <= v <= hi -> clamp v lo hi = v)
  /\ (v < lo -> clamp v lo hi = lo)
  /\ (hi < v -> clamp v lo hi = hi).
Proof.
  intros Hle. unfold clamp. cbn [flt Q_SampleOps].
  destruct (Qltb v lo) eqn:E1; [apply Qltb_true in E1|apply Qltb_false in E1];
    (destruct (Qltb hi v) eqn:E2; [apply Qltb_true in E2|apply Qltb_false in E2]);
    repeat split; try done; try lra; intros; lra.
Qed.

(** X10: on exact rationals, so for values that are numbers and not NaN,
    the pulse width of [PulseOsc] stays in [[0, 1]]: it starts at one half,
    [setPulseWidth] clamps every rational into the interval and stores a
    value of the interval unchanged, [reset] and every [setParameter] with
    a rational value that returns keep the width in the interval, and
    [getParameter("pulseWidth")] reads the stored width. *)
Theorem pulse_width_stays_in_unit_interval
    (ndebug : bool) (p : @PulseOsc.t Q) (name : string) (v : Q) :
  0 <= PulseOsc.getPulseWidth (PulseOsc.init (sample_type := Q)) <= 1
  /\ 0 <= PulseOsc.getPulseWidth (PulseOsc.setPulseWidth p v) <= 1
  /\ (0 <= v <= 1 -> PulseOsc.getPulseWidth (PulseOsc.setPulseWidth p v) = v)
  /\ (0 <= PulseOsc.getPulseWidth p <= 1 ->
      0 <= PulseOsc.getPulseWidth (PulseOsc.reset p) <= 1
      /\ forall p', PulseOsc.setParameter ndebug p name v = Ok p' ->
           0 <= PulseOsc.getPulseWidth p' <= 1
           /\ PulseOsc.getParameter p' "pulseWidth" = Ok (PulseOsc.getPulseWidth p')).
Proof.
  destruct (clamp_range v 0 1) as (Hr & Hid & _); [done|].
  split; [|split; [|split]].
  - split; vm_compute; discriminate.
  - exact Hr.
  - exact Hid.
  - intros Hp. split; [done|]. intros p'. unfold PulseOsc.setParameter.
    destruct (String.eqb name "pulseWidth").
    + by intros [= <-].
    + by intros (b & _ & [= <-])%bind_Ok_inv.
Qed.

(** X11: on exact rationals, so for values that are numbers and not NaN,
    the gain of [GainModule] stays in [[0, MAX_GAIN]] = [[0, 10]] under
    [setParameter] with any name and any rational value; setting ["Gain"]
    stores a value of the range unchanged, stores 0 for a negative value
    and 10 for a value above 10; after [reset] the gain reads 1. *)
Theorem gain_stays_in_range (g : @GainModule.t Q) (name : string) (v : Q) :
  (0 <= GainModule.m_gain g <= 10 ->
   0 <= GainModule.m_gain (GainModule.setParameter g name v) <= 10)
  /\ 0 <= GainModule.m_gain (GainModule.setParameter g "Gain" v) <= 10
  /\ (0 <= v <= 10 ->
      GainModule.getParameter (GainModule.setParameter g "Gain" v) "Gain" = v)
  /\ (v < 0 ->
      GainModule.getParameter (GainModule.setParameter g "Gain" v) "Gain" = 0)
  /\ (10 < v ->
      GainModule.getParameter (GainModule.setParameter g "Gain" v) "Gain" = 10)
  /\ GainModule.getParameter (GainModule.reset g) "Gain" = 1.
Proof.
  destruct (clamp_range v 0 10) as (Hr & Hid & Hlo & Hhi); [done|].
  split; [|split; [|split; [|split; [|split]]]]; try done.
  intros Hg. unfold GainModule.setParameter.
  by destruct (String.eqb name "Gain").
Qed.
End ClampedParameters.

Section PolyBlep.
Local Open Scope Q_scope.

Lemma square_below_one (v : Q) : 0 <= v <= 1 -> 0 <= v * v <= 1.
Proof.
  intros [H0 H1]. split; [by apply Qmult_le_0_compat|].
  assert (v * v <= 1 * 1) by (by apply Qmult_le_compat_nonneg). lra.
Qed.

Lemma square_pos (v : Q) : 0 < v -> 0 < v * v.
Proof. intros Hv. by apply Qmult_lt_0_compat. Qed.

Lemma square_lt_one (v : Q) : 0 <= v < 1 -> v * v < 1.
Proof.
  intros [H0 H1]. destruct (Qlt_le_dec 0 v) as [Hpos|Hz].
  - assert (v * v < 1 * v) by (by apply Qmult_lt_compat_r). lra.
  - assert (E : v == 0) by lra. rewrite E. reflexivity.
Qed.

(** X12: on exact rationals, for [t] in [[0, 1)] and [dt > 0], [polyBlep]
    is in [[-1, 1)]; it is negative just after an edge ([t < dt]), not
    negative otherwise, and -1 at [t = 0]. *)
Theorem polyBlep_range (t dt : Q) :
  0 <= t < 1 -> 0 < dt ->
  -1 <= Oscillator.polyBlep t dt < 1
  /\ (t < dt -> Oscillator.polyBlep t dt < 0)
  /\ (dt <= t -> 0 <= Oscillator.polyBlep t dt)
  /\ (t == 0 -> Oscillator.polyBlep t dt == -1).
Proof.
  intros [Ht0 Ht1] Hdt. unfold Oscillator.polyBlep.
  cbn [flt fadd fsub fmul fdiv of_Z Q_SampleOps]. change (inject_Z 1) with 1.
  change (inject_Z 0) with 0.
  destruct (Qltb t dt) eqn:E1; [apply Qltb_true in E1|apply Qltb_false in E1].
  - assert (Hu : 0 <= t / dt < 1).
    { split; [apply Qle_shift_div_l|apply Qlt_shift_div_r]; lra. }
    set (u := t / dt) in *.
    assert (E : u + u - u * u - 1 == - ((1 - u) * (1 - u))) by ring.
    pose proof (square_below_one (1 - u)) as Hsq.
    pose proof (square_pos (1 - u)) as Hpos.
    repeat split; try lra.
    intros Hz. unfold u. rewrite Hz. unfold Qdiv. ring.
  - destruct (Qltb (1 - dt) t) eqn:E2;
      [apply Qltb_true in E2|apply Qltb_false in E2].
    + assert (Hu : -1 < (t - 1) / dt < 0).
      { split; [apply Qlt_shift_div_l|apply Qlt_shift_div_r]; lra. }
      set (u := (t - 1) / dt) in *.
      assert (E : u * u + u + u + 1 == (u + 1) * (u + 1)) by ring.
      pose proof (square_lt_one (u + 1)) as Hsq.
      pose proof (square_pos (u + 1)) as Hpos.
      repeat split; try lra.
    + repeat split; try lra.
Qed.
End PolyBlep.

Section PolyBlepLanes.
Context {sample_type : Type} `{SampleOps sample_type}.

Lemma polyBlepSIMD_loop_lanes count index
    (timeVector deltaTimeVector result : list sample_type) :
  length deltaTimeVector = length timeVector ->
  length result = length timeVector ->
  (index + count = length timeVector)%nat ->
  drop index result = replicate count (of_Z 0) ->
  AntiAliased.polyBlepSIMD_loop count index timeVector deltaTimeVector result
  = Ok (take index result
        ++ zip_with Oscillator.polyBlep (drop index timeVector)
             (drop index deltaTimeVector)).
Proof.
  intros Hd. revert index result.
  induction count as [|count IH]; intros index result Hr Hi Hz;
    cbn [AntiAliased.polyBlepSIMD_loop].
  { rewrite (drop_ge timeVector), (take_ge result) by lia. cbn.
    by rewrite app_nil_r. }
  destruct (lookup_lt_is_Some_2 timeVector index) as [t Et]; [lia|].
  destruct (lookup_lt_is_Some_2 deltaTimeVector index) as [dt Edt]; [lia|].
  unfold load_at. rewrite Et, Edt. cbn [mbind Outcome_bind].
  assert (Ez : result !! index = Some (of_Z 0)).
  { rewrite <- (Nat.add_0_r index), <- lookup_drop, Hz. done. }
  assert (E : (if (t <? dt)%S then
                 store_at result index
                   (t / dt + t / dt - t / dt * (t / dt) - of_Z 1)%S
               else if (t >? of_Z 1 - dt)%S then
                 store_at result index
                   ((t - of_Z 1) / dt * ((t - of_Z 1) / dt) + (t - of_Z 1) / dt
                    + (t - of_Z 1) / dt + of_Z 1)%S
               else Ok result)
              = Ok (<[index := Oscillator.polyBlep t dt]> result)).
  { unfold Oscillator.polyBlep, store_at.
    destruct (t <? dt)%S; [by rewrite decide_True by lia|].
    destruct (t >? of_Z 1 - dt)%S; [by rewrite decide_True by lia|].
    by rewrite list_insert_id. }
  rewrite E. cbn [mbind Outcome_bind].
  rewrite IH.
  - rewrite (drop_S timeVector t index Et), (drop_S deltaTimeVector dt index Edt).
    cbn [zip_with].
    rewrite (take_S_r _ index (Oscillator.polyBlep t dt))
      by (apply list_lookup_insert_eq; lia).
    rewrite take_insert_ge by lia. by rewrite <- app_assoc.
  - by rewrite length_insert.
  - lia.
  - rewrite drop_insert_lt by lia.
    apply (f_equal (drop 1)) in Hz. by rewrite drop_drop, Nat.add_1_r in Hz.
Qed.

(** X13: [SawOsc::polyBlepSIMD] on two vectors of the same size returns,
    lane by lane, what [polyBlep] returns on the two elements of the
    lane. *)
Theorem polyBlepSIMD_is_polyBlep_on_each_lane
    (timeVector deltaTimeVector : list sample_type) :
  length deltaTimeVector = length timeVector ->
  AntiAliased.polyBlepSIMD timeVector deltaTimeVector
  = Ok (zip_with Oscillator.polyBlep timeVector deltaTimeVector).
Proof.
  intros Hd. unfold AntiAliased.polyBlepSIMD.
  rewrite polyBlepSIMD_loop_lanes;
    [done|done|by rewrite length_replicate|lia|done].
Qed.
End PolyBlepLanes.

Section AntiAliasedSaw.
Local Open Scope Q_scope.

(** X14: on exact rationals, with a positive frequency and sample rate:
    away from the edge ([dt <= t <= 1 - dt] with [t = phase / 2 pi] and
    [dt = frequency / sampleRate]) [getCurrentValue] of the anti-aliased
    sawtooth is that of the plain sawtooth; right after [reset] it is 0,
    where the plain sawtooth is at minus the amplitude. *)
Theorem anti_aliased_saw_value (sampleRate : N) (o : @Oscillator.t Q) :
  0 < Oscillator.m_frequency o -> (0 < sampleRate)%N ->
  (Oscillator.m_frequency o / inject_Z (Z.of_N sampleRate)
     <= Oscillator.m_phase o / twoPiConstant
     <= 1 - Oscillator.m_frequency o / inject_Z (Z.of_N sampleRate) ->
   AntiAliased.sawCurrentValue sampleRate o
   == Oscillator.getCurrentValue Oscillator.sawWave o)
  /\ AntiAliased.sawCurrentValue sampleRate (Oscillator.reset o) == 0
  /\ Oscillator.getCurrentValue Oscillator.sawWave (Oscillator.reset o)
     == - Oscillator.m_amplitude o.
Proof.
  intros Hf Hsr.
  assert (Hsr' : 0 < inject_Z (Z.of_N sampleRate)).
  { change 0 with (inject_Z 0). rewrite <- Zlt_Qlt. lia. }
  assert (Hdt : 0 < Oscillator.m_frequency o / inject_Z (Z.of_N sampleRate)).
  { apply Qlt_shift_div_l; lra. }
  unfold AntiAliased.sawCurrentValue, Oscillator.getCurrentValue,
    Oscillator.sawWave, Oscillator.polyBlep, Oscillator.getPhase,
    Oscillator.getFrequency, Oscillator.getAmplitude.
  cbn [flt fadd fsub fmul fdiv of_Z piConstant Q_SampleOps Oscillator.reset
       Oscillator.m_phase Oscillator.m_frequency Oscillator.m_amplitude].
  change (inject_Z 1) with 1. change (inject_Z 2) with 2.
  change (inject_Z 0) with 0.
  set (dt := Oscillator.m_frequency o / inject_Z (Z.of_N sampleRate)) in *.
  split; [|split].
  - intros [H1 H2].
    rewrite (proj2 (Qltb_false _ _) H1), (proj2 (Qltb_false _ _) H2).
    assert (Etp : twoPiConstant (T := Q) == 2 * Qpi) by reflexivity. rewrite Etp. field. intros Ep; vm_compute in Ep; discriminate.
  - assert (E0 : 0 / twoPiConstant (T := Q) == 0) by reflexivity.
    assert (Elt : Qltb (0 / twoPiConstant) dt = true).
    { apply Qltb_true. by rewrite E0. }
    rewrite Elt. cbv zeta. rewrite E0.
    assert (Ed : 0 / dt == 0) by (unfold Qdiv; ring). rewrite Ed. ring.
  - unfold Qdiv. ring.
Qed.
End AntiAliasedSaw.

Section AntiAliasedPulse.
Local Open Scope Q_scope.

Lemma Qfmod_one (x : Q) (k : Z) :
  (0 <= k)%Z -> inject_Z k <= x < inject_Z k + 1 ->
  Qfmod x 1 == x - inject_Z k.
Proof.
  intros Hk [Hlo Hhi]. unfold Qfmod, Qtrunc.
  assert (E : x / 1 == x) by (field; done).
  assert (H0 : 0 <= x / 1).
  { rewrite E. apply Qle_trans with (inject_Z k); [|done].
    change 0 with (inject_Z 0). by rewrite <- Zle_Qle. }
  rewrite (proj2 (Qle_bool_iff 0 (x / 1)) H0).
  assert (Ef : Qfloor (x / 1) = k).
  { rewrite E. apply Z.le_antisymm.
    - assert (Hlt : inject_Z (Qfloor x) < inject_Z (k + 1)).
      { rewrite inject_Z_plus. change (inject_Z 1) with 1.
        pose proof (Qfloor_le x). lra. }
      rewrite <- Zlt_Qlt in Hlt. lia.
    - apply Qfloor_resp_le in Hlo. by rewrite Qfloor_Z in Hlo. }
  rewrite Ef. ring.
Qed.

Lemma polyBlep_flat (t dt : Q) :
  dt <= t <= 1 - dt -> Oscillator.polyBlep t dt = 0.
Proof.
  intros [H1 H2]. unfold Oscillator.polyBlep.
  cbn [flt fsub of_Z Q_SampleOps]. change (inject_Z 1) with 1.
  by rewrite (proj2 (Qltb_false t dt) H1), (proj2 (Qltb_false _ _) H2).
Qed.

(** X15: on exact rationals, with [t = phase / 2 pi],
    [dt = frequency / sampleRate > 0] and pulse width [w]: when [t] is at
    least [dt] away from both ends of the period and from [w],
    [getCurrentValue] of the anti-aliased pulse oscillator is the amplitude
    before the pulse width and minus the amplitude after it. *)
Theorem anti_aliased_pulse_value
    (sampleRate : N) (frequency amplitude phase w : Q) :
  0 < frequency / inject_Z (Z.of_N sampleRate) ->
  frequency / inject_Z (Z.of_N sampleRate)
    <= phase / twoPiConstant
    <= 1 - frequency / inject_Z (Z.of_N sampleRate) ->
  (frequency / inject_Z (Z.of_N sampleRate)
     <= w - phase / twoPiConstant
     <= 1 - frequency / inject_Z (Z.of_N sampleRate) ->
   AntiAliased.pulseCurrentValue sampleRate
     (PulseOsc.mk (Oscillator.mk frequency amplitude phase) w)
   == amplitude)
  /\ (frequency / inject_Z (Z.of_N sampleRate)
        <= phase / twoPiConstant - w
        <= 1 - frequency / inject_Z (Z.of_N sampleRate) ->
      AntiAliased.pulseCurrentValue sampleRate
        (PulseOsc.mk (Oscillator.mk frequency amplitude phase) w)
      == - amplitude).
Proof.
  set (t := phase / twoPiConstant).
  set (dt := frequency / inject_Z (Z.of_N sampleRate)).
  intros Hdt Ht.
  unfold AntiAliased.pulseCurrentValue, Oscillator.getPhase,
    Oscillator.getFrequency, Oscillator.getAmplitude.
  cbn [flt fadd fsub fmul fdiv fmod of_Z Q_SampleOps PulseOsc.base
       PulseOsc.m_pulseWidth Oscillator.m_phase Oscillator.m_frequency
       Oscillator.m_amplitude].
  change (inject_Z 1) with 1. change (inject_Z (-1)) with (-1).
  fold t dt. cbv zeta.
  rewrite (polyBlep_flat t dt Ht).
  split.
  - intros Hd.
    assert (E : Qfmod (t + 1 - w) 1 == t + 1 - w).
    { rewrite (Qfmod_one _ 0); [|done|].
      - change (inject_Z 0) with 0. ring.
      - change (inject_Z 0) with 0. lra. }
    rewrite (polyBlep_flat (Qfmod (t + 1 - w) 1) dt) by lra.
    rewrite (proj2 (Qltb_true t w)) by lra. ring.
  - intros Hd.
    assert (E : Qfmod (t + 1 - w) 1 == t - w).
    { rewrite (Qfmod_one _ 1); [|done|].
      - change (inject_Z 1) with 1. ring.
      - change (inject_Z 1) with 1. lra. }
    rewrite (polyBlep_flat (Qfmod (t + 1 - w) 1) dt) by lra.
    rewrite (proj2 (Qltb_false t w)) by lra. ring.
Qed.
End AntiAliasedPulse.

(** ** One block of the gain node *)

Section GainBlock.
Context {sample_type : Type} `{SampleOps sample_type}.

Implicit Types (st : Store sample_type).

Lemma multiply_loop_scales count st (input output : ptr) i (gain : sample_type)
    (inbuf outbuf : list sample_type) :
  st !! input = Some inbuf -> st !! output = Some outbuf ->
  (i + count <= length inbuf)%nat -> (i + count <= length outbuf)%nat ->
  GainModule.multiply_loop count st input output i gain
  = Ok (<[output := take i outbuf
                    ++ ((fun x => (x * gain)%S) <$> take count (drop i inbuf))
                    ++ drop (i + count) outbuf]> st).
Proof.
  revert st i inbuf outbuf.
  induction count as [|count IH]; intros st i inbuf outbuf Ein Eout Hin Hout;
    cbn [GainModule.multiply_loop].
  { rewrite Nat.add_0_r, take_0. cbn [fmap list_fmap app].
    rewrite take_drop. by rewrite list_insert_id. }
  destruct (lookup_lt_is_Some_2 inbuf i) as [x Ex]; [lia|].
  unfold load, load_at. rewrite Ein, Ex. cbn [mbind Outcome_bind].
  unfold store, store_at. rewrite Eout.
  rewrite decide_True by lia. cbn [mbind Outcome_bind].
  assert (Hout' : (output < length st)%nat) by (by eapply lookup_lt_Some).
  set (outbuf1 := <[i := (x * gain)%S]> outbuf).
  set (st1 := <[output := outbuf1]> st).
  assert (Eout1 : st1 !! output = Some outbuf1)
    by (by apply list_lookup_insert_eq).
  destruct (decide (input = output)) as [->|Hne].
  - assert (inbuf = outbuf) as -> by congruence.
    rewrite (IH st1 (S i) outbuf1 outbuf1 Eout1 Eout1)
      by (unfold outbuf1; rewrite length_insert; lia).
    unfold st1. rewrite list_insert_insert_eq. f_equal. f_equal.
    unfold outbuf1.
    rewrite (take_S_r _ i (x * gain)%S) by (apply list_lookup_insert_eq; lia).
    rewrite take_insert_ge by lia.
    rewrite !drop_insert_lt by lia.
    rewrite (drop_S outbuf x i Ex). cbn [take fmap list_fmap].
    rewrite <- app_assoc. cbn. by rewrite Nat.add_succ_r.
  - assert (Ein1 : st1 !! input = Some inbuf).
    { unfold st1. by rewrite list_lookup_insert_ne. }
    rewrite (IH st1 (S i) inbuf outbuf1 Ein1 Eout1)
      by (unfold outbuf1; rewrite ?length_insert; lia).
    unfold st1. rewrite list_insert_insert_eq. f_equal. f_equal.
    unfold outbuf1.
    rewrite (take_S_r _ i (x * gain)%S) by (apply list_lookup_insert_eq; lia).
    rewrite take_insert_ge by lia.
    rewrite !drop_insert_lt by lia.
    rewrite (drop_S inbuf x i Ex). cbn [take fmap list_fmap].
    rewrite <- app_assoc. cbn. by rewrite Nat.add_succ_r.
Qed.

(** X16: [GainModule::process] with two different buffers as input and
    output, each of at least [numFrames] samples, and [numFrames] below
    [2^32 - 8] returns normally; the first [numFrames] samples of the
    output buffer are those of the input buffer times the gain, and the
    rest of the output buffer and every other buffer are unchanged. *)
Theorem GainModule_process_scales_its_input
    (g : @GainModule.t sample_type) (input output : ptr)
    (inputs : list (option ptr)) (outputs : list ptr) (n : nat) st
    (inbuf outbuf : list sample_type) :
  input <> output ->
  (N.of_nat n < 2 ^ 32 - GainModule.vector_size)%N ->
  st !! input = Some inbuf -> st !! output = Some outbuf ->
  (n <= length inbuf)%nat -> (n <= length outbuf)%nat ->
  GainModule.process g (Some input :: inputs) (output :: outputs) n st
  = Ok (g, <[output := ((fun x => (x * GainModule.m_gain g)%S) <$> take n inbuf)
                       ++ drop n outbuf]> st).
Proof.
  intros Hne Hn Ein Eout Hin Hout. unfold GainModule.process.
  destruct (decide (n = 0%nat)) as [->|Hn0].
  { cbn. by rewrite list_insert_id. }
  rewrite decide_False by done. unfold GainModule.multiply.
  rewrite (proj2 (N.ltb_lt _ _) Hn).
  by rewrite (multiply_loop_scales n st input output 0 _ inbuf outbuf).
Qed.
End GainBlock.

(** ** The module table and the consistency of the patch graph *)

Section ModuleTable.
Context {sample_type M : Type}.
Context `{SampleOps sample_type} `{UGen.class sample_type M}.
Import ModularSystem.

Implicit Types (s : @ModularSystem.t sample_type M) (c : Connection).

Lemma getModule_cons_ne (e : string * M) (modules : list (string * M)) other :
  e.1 <> other ->
  snd <$> (snd <$> find other (e :: modules))
  = snd <$> (snd <$> find other modules).
Proof.
  intros Hne. unfold find. cbn [list_find].
  rewrite decide_False by done. by destruct (list_find _ modules) as [[? ?]|].
Qed.


Lemma elem_of_delete_ne {A} (l : list A) i (x y : A) :
  x ∈ l -> l !! i = Some y -> x <> y -> x ∈ delete i l.
Proof.
  intros Hx Hi Hne. apply (delete_Permutation l i y) in Hi.
  rewrite Hi in Hx. apply elem_of_cons in Hx as [?|?]; done.
Qed.



Lemma erase_first_sublist (p : Connection -> bool) (l : list Connection) :
  sublist (erase_first p l) l.
Proof.
  induction l as [|a l IH]; cbn; [constructor|].
  destruct (p a); [by apply sublist_cons | by constructor].
Qed.

Lemma removed_connections name (l : list Connection) c :
  c ∈ List.filter (fun conn =>
         negb (String.eqb (fromModule conn) name
               || String.eqb (toModule conn) name)) l
  <-> c ∈ l /\ fromModule c <> name /\ toModule c <> name.
Proof.
  rewrite !list_elem_of_In, filter_In, negb_true_iff, orb_false_iff,
    !String.eqb_neq. done.
Qed.

(** X17: [addModule] throws [runtime_error] for a name that is already in
    the table; for a new name it returns, [getModule] then finds the module
    under that name and finds every other name as before, the names that
    [getModuleNames] lists are the old ones and the new one, one more than
    before, and the connections are unchanged.  Nothing is said about the
    order of the table. *)
Theorem addModule_registers_a_new_name s (name : string) (module : M) :
  (name ∈ names s ->
   addModule s name module
   = Throw (runtime_error ("Module with name '" ++ name ++ "' already exists.")))
  /\ (name ∉ names s ->
      exists s',
        addModule s name module = Ok s'
        /\ getModule s' name = Some module
        /\ (forall other : string,
              other <> name -> getModule s' other = getModule s other)
        /\ (forall other : string,
              other ∈ getModuleNames s'
              <-> other = name \/ other ∈ getModuleNames s)
        /\ length (getModuleNames s') = S (length (getModuleNames s))
        /\ m_connections s' = m_connections s).
Proof.
  unfold addModule. split.
  - by intros [i ->]%find_index_Some.
  - intros ->%find_index_None. eexists. split; [done|].
    unfold getModule, getModuleNames, names. cbn [m_modules m_connections].
    split; [|split; [|split; [|split; [|done]]]].
    + unfold find. cbn [list_find]. by rewrite decide_True.
    + intros other Hne. by apply getModule_cons_ne.
    + intros other. cbn. by rewrite elem_of_cons.
    + done.
Qed.


(** X19: the patch graph stays consistent under its whole interface: the
    empty system has unique module names and no dangling connection, and
    [addModule], [removeModule], [connect] (when they return) and
    [disconnect] keep it so.  In a consistent system the lookup of the
    source buffer in [process] succeeds for every connection. *)
Theorem wiring_stays_consistent s (name : string) (module : M)
    (f : string) (o : nat) (t : string) (i : nat) :
  Wiring.consistent (init (sample_type := sample_type) (M := M))
  /\ (Wiring.consistent s ->
      (forall s', addModule s name module = Ok s' -> Wiring.consistent s')
      /\ (forall s', removeModule s name = Ok s' -> Wiring.consistent s')
      /\ (forall s', connect s f o t i = Ok s' -> Wiring.consistent s')
      /\ Wiring.consistent (disconnect s f o t i)
      /\ (forall c, c ∈ m_connections s ->
            exists b, find_index (fromModule c) (names s) = Some b
                      /\ (b < length (m_modules s))%nat)).
Proof.
  split.
  { split; [constructor|]. by intros c Hc%elem_of_nil. }
  intros [Hnd Hconn]. split; [|split; [|split; [|split]]].
  - intros s'. unfold addModule.
    destruct (find_index name (names s)) eqn:E; [done|]. intros [= <-].
    apply find_index_None in E. split.
    + unfold names. cbn. by apply NoDup_cons.
    + intros c Hc. destruct (Hconn c Hc) as [Hf Ht].
      unfold names. cbn. split; by right.
  - intros s'. unfold removeModule.
    destruct (find_index name (names s)) as [j|] eqn:E; [|done]. intros [= <-].
    pose proof (find_index_lookup _ _ _ E) as Hj. split.
    + unfold names. cbn [m_modules]. rewrite list_fmap_delete.
      eapply sublist_NoDup; [done|apply sublist_delete].
    + intros c. cbn [m_connections]. rewrite removed_connections.
      intros (Hc & Hf & Ht). destruct (Hconn c Hc) as [Hf' Ht'].
      unfold names. cbn [m_modules]. rewrite list_fmap_delete.
      split; by eapply elem_of_delete_ne.
  - intros s'. unfold connect.
    destruct (find_index f (names s)) eqn:Ef; [|done].
    destruct (find_index t (names s)) eqn:Et; [|done]. intros [= <-].
    split; [done|]. intros c. cbn [m_connections]. rewrite elem_of_app.
    intros [Hc|Hc]; [by apply Hconn|].
    apply list_elem_of_singleton in Hc as ->.
    cbn. split.
    + destruct (decide (f ∈ names s)) as [?|Hno]; [done|].
      apply find_index_None in Hno. congruence.
    + destruct (decide (t ∈ names s)) as [?|Hno]; [done|].
      apply find_index_None in Hno. congruence.
  - split; [done|]. intros c Hc. apply Hconn.
    eapply elem_of_sublist; [exact Hc|apply erase_first_sublist].
  - intros c Hc. destruct (Hconn c Hc) as [[b Eb]%find_index_Some _].
    exists b. split; [done|]. apply find_index_lt in Eb.
    unfold names in Eb. by rewrite length_fmap in Eb.
Qed.
End ModuleTable.

Section ModuleLookup.
Context {sample_type M : Type}.
Context `{SampleOps sample_type} `{UGen.class sample_type M}.
Import ModularSystem.

Implicit Types (s : @ModularSystem.t sample_type M).


(** X22: when the tuple occurs in the connection list, [disconnect]
    erases its earliest occurrence and nothing else: the list gets one
    element shorter, later copies and all other connections stay in their
    order, and the modules are untouched. *)
Theorem disconnect_erases_the_earliest_copy s (f : string) (o : nat)
    (t : string) (i : nat) (l1 l2 : list Connection) :
  m_connections s = l1 ++ mkConnection f o t i :: l2 ->
  mkConnection f o t i ∉ l1 ->
  m_connections (disconnect s f o t i) = l1 ++ l2
  /\ m_modules (disconnect s f o t i) = m_modules s
  /\ (length (m_connections (disconnect s f o t i)) + 1
      = length (m_connections s))%nat.
Proof.
  intros E Hno. unfold disconnect. cbn [m_connections m_modules]. rewrite E.
  rewrite erase_first_middle.
  - rewrite !length_app. cbn [length]. split; [done|]. split; [done|]. lia.
  - intros c' Hc'. destruct (same_connection f o t i c') eqn:Es; [|done].
    apply same_connection_true in Es as ->. done.
  - by apply same_connection_true.
Qed.
End ModuleLookup.

(** ** Signal flow through one block *)

Section SignalFlow.
Context {sample_type : Type} `{SampleOps sample_type}.
Import ModularSystem Graph.
Variable ndebug : bool.
Variable sampleRate : N.

Abbreviation engine_class :=
  (Node.ugen (sample_type := sample_type) ndebug sampleRate).

Implicit Types (st : Store sample_type).

Lemma fill_frame count st output i (v : sample_type) st' :
  ConstSource.fill count st output i v = Ok st' ->
  forall q, q <> output -> st' !! q = st !! q.
Proof.
  revert st i. induction count as [|count IH]; intros st i; cbn.
  { by intros [= <-]. }
  intros (st1 & E1 & E2)%bind_Ok_inv q Hq.
  apply store_frame in E1 as (_ & Hother & _).
  rewrite (IH _ _ E2 q Hq). by apply Hother.
Qed.

(** A node that is not a gain reads no input buffer when none is bound. *)
Lemma producer_process k n (m : @Node.t sample_type) (j : ptr) st :
  shaped k n st -> (j < k)%nat -> (forall g, m <> Node.Gain g) ->
  exists m' st',
    Node.process sampleRate m (replicate (Node.getNumInputs m) None) [j] n st
    = Ok (m', st')
    /\ shaped k n st'
    /\ (forall q, q <> j -> st' !! q = st !! q)
    /\ (forall g, m' <> Node.Gain g).
Proof.
  intros Hst Hj Hm.
  destruct (Node_process_ok sampleRate k n m
              (replicate (Node.getNumInputs m) None) [j] st)
    as (m' & st' & E & Hst' & _).
  { done. }
  { by apply Forall_singleton. }
  { apply Forall_replicate. by intros p [=]. }
  { intros g ->. by destruct (Hm g). }
  exists m', st'. split; [done|]. split; [done|].
  destruct m as [g|o|o|o|c]; cbn in E.
  - by destruct (Hm g).
  - apply bind_Ok_inv in E as ([o' st1] & E & [= <- <-]). split; [|done].
    unfold Oscillator.process, Oscillator.processScalar in E.
    destruct (decide (n = 0%nat)); [by simplify_eq|].
    apply bind_Ok_inv in E as ([st2 phase] & E & [= _ <-]).
    by apply scalarLoop_frame in E as [_ ?].
  - apply bind_Ok_inv in E as ([o' st1] & E & [= <- <-]). split; [|done].
    unfold Oscillator.process, Oscillator.processScalar in E.
    destruct (decide (n = 0%nat)); [by simplify_eq|].
    apply bind_Ok_inv in E as ([st2 phase] & E & [= _ <-]).
    by apply scalarLoop_frame in E as [_ ?].
  - apply bind_Ok_inv in E as ([o' st1] & E & [= <- <-]). split; [|done].
    unfold Oscillator.process, Oscillator.processScalar in E.
    destruct (decide (n = 0%nat)); [by simplify_eq|].
    apply bind_Ok_inv in E as ([st2 phase] & E & [= _ <-]).
    by apply scalarLoop_frame in E as [_ ?].
  - apply bind_Ok_inv in E as ([c' st1] & E & [= <- <-]). split; [|done].
    unfold ConstSource.process in E.
    apply bind_Ok_inv in E as (st2 & E & [= _ <-]).
    exact (fill_frame _ _ _ _ _ _ E).
Qed.

Lemma gain_block (g : @GainModule.t sample_type) (input output : ptr) n st
    (inbuf outbuf : list sample_type) :
  input <> output ->
  (N.of_nat n < 2 ^ 32 - GainModule.vector_size)%N ->
  st !! input = Some inbuf -> st !! output = Some outbuf ->
  length inbuf = n -> length outbuf = n ->
  GainModule.process g [Some input] [output] n st
  = Ok (g, <[output := (fun x => (x * GainModule.m_gain g)%S) <$> inbuf]> st).
Proof.
  intros Hne Hn Ein Eout Hin Hout. unfold GainModule.process.
  destruct (decide (n = 0%nat)) as [->|Hn0].
  { apply nil_length_inv in Hin as ->. apply nil_length_inv in Hout as ->.
    cbn. by rewrite list_insert_id. }
  rewrite decide_False by done. unfold GainModule.multiply.
  rewrite (proj2 (N.ltb_lt _ _) Hn).
  rewrite (multiply_loop_scales n st input output 0 _ inbuf outbuf)
    by (done || lia).
  rewrite take_0, Nat.add_0_l, drop_0, take_ge, drop_ge by lia.
  cbn [app]. by rewrite app_nil_r.
Qed.

Lemma shaped_two n st :
  shaped 2 n st ->
  exists b0 b1, st = [b0; b1] /\ length b0 = n /\ length b1 = n.
Proof.
  intros [Hlen Hall]. destruct st as [|b0 [|b1 [|? ?]]]; try done.
  apply Forall_cons in Hall as [H0 Hall]. apply Forall_cons in Hall as [H1 _].
  by exists b0, b1.
Qed.

Lemma fresh_buffers (k n : nat) st :
  shaped k n (resize n (of_Z 0) <$> resize k [] st).
Proof.
  split.
  - by rewrite length_fmap, length_resize.
  - apply Forall_fmap, Forall_true. intros buf. cbn. by rewrite length_resize.
Qed.

(** X20: in a system of a producer ["a"] connected to a gain node ["b"],
    one call of [process] with [numFrames] below [2^32 - 8] returns.  The
    producer is any node that is not a gain: a constant source, or an
    oscillator along its scalar path, the code of a build without AVX and
    SSE.  When the producer comes first in the table, the buffer of the
    gain is the block the producer has just written, times the gain; when
    the gain comes first, it is the previous content of the producer's
    buffer (zero-filled to [numFrames]) times the gain, so the signal
    arrives one block late.  The output index of the connection plays no
    part. *)
Theorem gain_hears_its_producer_in_table_order
    (a b : string) (m : @Node.t sample_type) (g : @GainModule.t sample_type)
    (o : nat) (n : nat) (old : Store sample_type) :
  a <> b -> (forall g', m <> Node.Gain g') ->
  (N.of_nat n < 2 ^ 32 - GainModule.vector_size)%N ->
  (exists m' out,
     process (H0 := engine_class)
       {| m_modules := [(a, m); (b, Node.Gain g)];
          m_connections := [mkConnection a o b 0];
          m_audioBuffers := old |} n
     = Ok {| m_modules := [(a, m'); (b, Node.Gain g)];
             m_connections := [mkConnection a o b 0];
             m_audioBuffers :=
               [out; (fun x => (x * GainModule.m_gain g)%S) <$> out] |}
     /\ length out = n)
  /\ (exists m' out,
        process (H0 := engine_class)
          {| m_modules := [(b, Node.Gain g); (a, m)];
             m_connections := [mkConnection a o b 0];
             m_audioBuffers := old |} n
        = Ok {| m_modules := [(b, Node.Gain g); (a, m')];
                m_connections := [mkConnection a o b 0];
                m_audioBuffers :=
                  [(fun x => (x * GainModule.m_gain g)%S)
                     <$> resize n (of_Z 0) (default [] (old !! 1%nat));
                   out] |}
        /\ length out = n).
Proof.
  intros Hab Hm Hn.
  assert (Eab : String.eqb a b = false) by (by apply String.eqb_neq).
  assert (Eba : String.eqb b a = false) by (by apply String.eqb_neq).
  split.
  - unfold process. cbn [m_modules m_connections m_audioBuffers length].
    pose proof (fresh_buffers 2 n old) as Hst0.
    set (st0 := resize n (of_Z 0) <$> resize 2 [] old) in *.
    unfold names. cbn [m_modules fmap list_fmap fst].
    cbn [processModules]. unfold processModule.
    cbn [gatherInputs toModule fromModule inputIndex].
    rewrite Eba, String.eqb_refl. cbn [find_index].
    rewrite !String.eqb_refl, Eab. cbn [fmap option_fmap option_map default
      from_option id length].
    cbn [UGen.getNumInputs UGen.getNumOutputs UGen.process Node.ugen].
    cbn [mbind Outcome_bind].
    destruct (producer_process 2 n m 0%nat st0) as (m' & st1 & E & Hst1 & Hfr & _);
      [done|lia|done|].
    assert (Hout : Node.getNumOutputs m = 1%nat) by (by destruct m).
    rewrite Hout. cbn [replicate]. rewrite E. cbn [mbind Outcome_bind].
    cbn [Node.getNumInputs Node.getNumOutputs GainModule.getNumInputs
         GainModule.getNumOutputs replicate].
    unfold store_at. cbn [length]. rewrite decide_True by lia.
    cbn [mbind Outcome_bind insert list_insert Node.process].
    destruct (shaped_two n st1 Hst1) as (out & b1 & -> & Ho & Hb1).
    rewrite (gain_block g 0%nat 1%nat n [out; b1] out b1) by (done || lia).
    cbn. eauto.
  - unfold process. cbn [m_modules m_connections m_audioBuffers length].
    pose proof (fresh_buffers 2 n old) as Hst0.
    assert (E1 : (resize n (of_Z 0) <$> resize 2 [] old) !! 1%nat
                 = Some (resize n (of_Z 0) (default [] (old !! 1%nat)))).
    { rewrite list_lookup_fmap.
      destruct (old !! 1%nat) as [buf|] eqn:Eo; cbn [default from_option id].
      - rewrite lookup_resize by (by eapply lookup_lt_Some || lia).
        by rewrite Eo.
      - apply lookup_ge_None in Eo. by rewrite lookup_resize_new by lia. }
    set (st0 := resize n (of_Z 0) <$> resize 2 [] old) in *.
    unfold names. cbn [m_modules fmap list_fmap fst].
    cbn [processModules]. unfold processModule.
    cbn [gatherInputs toModule fromModule inputIndex].
    rewrite Eba, String.eqb_refl. cbn [find_index].
    rewrite !String.eqb_refl, Eba. cbn [fmap option_fmap option_map default
      from_option id length].
    cbn [UGen.getNumInputs UGen.getNumOutputs UGen.process Node.ugen].
    cbn [Node.getNumInputs Node.getNumOutputs GainModule.getNumInputs
         GainModule.getNumOutputs replicate].
    unfold store_at. cbn [length]. rewrite decide_True by lia.
    cbn [mbind Outcome_bind insert list_insert Node.process].
    destruct (shaped_two n st0 Hst0) as (b0 & z1 & Est0 & Hb0 & Hz1).
    rewrite Est0 in E1 |- *. cbn in E1. injection E1 as ->.
    rewrite (gain_block g 1%nat 0%nat n [b0; _] _ b0) by (done || lia).
    cbn [mbind Outcome_bind insert list_insert].
    set (st1 := [_; _]).
    destruct (producer_process 2 n m 1%nat st1) as (m' & st2 & E & Hst2 & Hfr & _).
    { split; [done|]. repeat constructor; [|done].
      by rewrite length_fmap. }
    { lia. }
    { done. }
    assert (Hout : Node.getNumOutputs m = 1%nat) by (by destruct m).
    rewrite Hout. cbn [replicate]. rewrite E. cbn [mbind Outcome_bind].
    destruct (shaped_two n st2 Hst2) as (c0 & out & -> & Hc0 & Ho).
    specialize (Hfr 0%nat ltac:(lia)). cbn in Hfr. injection Hfr as ->.
    eauto.
Qed.
End SignalFlow.

(** ** Port names *)

Section PortNames.
Context {sample_type : Type} `{SampleOps sample_type}.

End PortNames.

(** ** The table-lookup oscillator *)

Section TableLookup.
Local Open Scope Q_scope.

(** X24: on exact rationals, [cubicInterpolate(v0, v1, v2, v3, t)] is [v1]
    at [t = 0] and [v2] at [t = 1], and four equal values interpolate to
    that value for every [t]. *)
Theorem cubicInterpolate_passes_through_the_inner_points (v0 v1 v2 v3 c t : Q) :
  LookupTable.cubicInterpolate v0 v1 v2 v3 0 == v1
  /\ LookupTable.cubicInterpolate v0 v1 v2 v3 1 == v2
  /\ LookupTable.cubicInterpolate c c c c t == c.
Proof.
  unfold LookupTable.cubicInterpolate. cbn [fadd fsub fmul Q_SampleOps].
  repeat split; ring.
Qed.

Lemma Qtrunc_nonneg_floor (x : Q) : 0 <= x -> Qtrunc x = Qfloor x.
Proof. intros Hx. unfold Qtrunc. by rewrite (proj2 (Qle_bool_iff 0 x) Hx). Qed.

Lemma Qtrunc_bounds (x : Q) (lo hi : Z) :
  inject_Z lo <= x < inject_Z hi -> (0 <= lo)%Z ->
  (lo <= Qtrunc x < hi)%Z.
Proof.
  intros [Hlo Hhi] H0.
  assert (Hx : 0 <= x).
  { apply Qle_trans with (inject_Z lo); [|done].
    change 0 with (inject_Z 0). by rewrite <- Zle_Qle. }
  rewrite Qtrunc_nonneg_floor by done. split.
  - apply Qfloor_resp_le in Hlo. by rewrite Qfloor_Z in Hlo.
  - pose proof (Qfloor_le x) as Hf. rewrite Zlt_Qlt. lra.
Qed.

Lemma at_index_in_range (table : list Q) (k : Z) :
  (0 <= k < Z.of_nat (length table))%Z ->
  exists v, LookupTable.at_index table k = Ok v
            /\ table !! Z.to_nat k = Some v.
Proof.
  intros Hk. unfold LookupTable.at_index, load_at.
  rewrite (proj2 (Z.leb_le 0 k)) by lia.
  destruct (lookup_lt_is_Some_2 table (Z.to_nat k)) as [v Ev]; [lia|].
  rewrite Ev. eauto.
Qed.

Lemma at_index_out_of_range (table : list Q) (k : Z) :
  (k < 0 \/ Z.of_nat (length table) <= k)%Z ->
  LookupTable.at_index table k = Undefined.
Proof.
  intros Hk. unfold LookupTable.at_index, load_at.
  destruct (Z.leb_spec 0 k) as [H0|H0]; [|done].
  rewrite (proj2 (lookup_ge_None table (Z.to_nat k))); [done|lia].
Qed.

Lemma interpolate_reads (table : list Q) (index : Q) :
  length table = Z.to_nat LookupTable.tableSize ->
  (- 2 ^ 31 <= Qtrunc index < 2 ^ 31)%Z ->
  LookupTable.interpolate table index
  = v0 ← LookupTable.at_index table
           ((Qtrunc index - 1 + LookupTable.tableSize) mod LookupTable.tableSize)%Z;
    v1 ← LookupTable.at_index table (Qtrunc index);
    v2 ← LookupTable.at_index table
           ((Qtrunc index + 1) mod LookupTable.tableSize)%Z;
    v3 ← LookupTable.at_index table
           ((Qtrunc index + 2) mod LookupTable.tableSize)%Z;
    Ok (LookupTable.cubicInterpolate v0 v1 v2 v3
          (index - inject_Z (Qtrunc index))).
Proof.
  intros Hlen [Hlo Hhi]. unfold LookupTable.interpolate.
  change (to_int index) with (Qtrunc index).
  rewrite (proj2 (Z.leb_le _ _) Hlo), (proj2 (Z.ltb_lt _ _) Hhi). done.
Qed.

Lemma wrapped_index_in_range (table : list Q) (k : Z) :
  length table = Z.to_nat LookupTable.tableSize ->
  exists v, LookupTable.at_index table (k mod LookupTable.tableSize)%Z = Ok v.
Proof.
  intros Hlen.
  destruct (at_index_in_range table (k mod LookupTable.tableSize)%Z) as (v & E & _).
  { rewrite Hlen. unfold LookupTable.tableSize.
    pose proof (Z.mod_pos_bound k 2048). lia. }
  eauto.
Qed.

(** X25: on exact rationals and a table of [tableSize] = 2048 entries,
    [interpolate(table, index)] returns for an index in [[0, 2048)]; for an
    index of 2048 or more, or of -1 or less, it reads [table[idx]] outside
    the table, since only the three neighbour indices are taken modulo the
    table size; at a whole index [k] it returns the entry [table[k]]. *)
Theorem interpolate_reads_inside_the_table (table : list Q) (index : Q) :
  length table = Z.to_nat LookupTable.tableSize ->
  (0 <= index < inject_Z LookupTable.tableSize ->
   exists v, LookupTable.interpolate table index = Ok v)
  /\ (inject_Z LookupTable.tableSize <= index ->
      LookupTable.interpolate table index = Undefined)
  /\ (index <= -1 -> LookupTable.interpolate table index = Undefined)
  /\ (forall k : Z,
        (0 <= k < LookupTable.tableSize)%Z ->
        exists v x,
          LookupTable.interpolate table (inject_Z k) = Ok v
          /\ table !! Z.to_nat k = Some x /\ v == x).
Proof.
  intros Hlen.
  assert (Hin : forall index' : Q,
            (0 <= Qtrunc index' < LookupTable.tableSize)%Z ->
            exists v0 v1 v2 v3,
              LookupTable.interpolate table index'
              = Ok (LookupTable.cubicInterpolate v0 v1 v2 v3
                      (index' - inject_Z (Qtrunc index')))
              /\ table !! Z.to_nat (Qtrunc index') = Some v1).
  { intros index' Hk.
    rewrite interpolate_reads by (done || unfold LookupTable.tableSize in Hk; lia).
    destruct (wrapped_index_in_range table (Qtrunc index' - 1 + LookupTable.tableSize))
      as [v0 ->]; [done|].
    destruct (at_index_in_range table (Qtrunc index')) as (v1 & -> & Ev1);
      [rewrite Hlen; lia|].
    destruct (wrapped_index_in_range table (Qtrunc index' + 1)) as [v2 ->]; [done|].
    destruct (wrapped_index_in_range table (Qtrunc index' + 2)) as [v3 ->]; [done|].
    cbn. by exists v0, v1, v2, v3. }
  assert (Hout : forall index' : Q,
            (Qtrunc index' < 0 \/ LookupTable.tableSize <= Qtrunc index')%Z ->
            LookupTable.interpolate table index' = Undefined).
  { intros index' Hk. unfold LookupTable.interpolate.
    change (to_int index') with (Qtrunc index').
    destruct (negb _); [done|].
    destruct (wrapped_index_in_range table (Qtrunc index' - 1 + LookupTable.tableSize))
      as [v0 ->]; [done|].
    cbn [mbind Outcome_bind].
    rewrite (at_index_out_of_range table (Qtrunc index')); [done|].
    rewrite Hlen. lia. }
  split; [|split; [|split]].
  - intros Hi. destruct (Hin index) as (v0 & v1 & v2 & v3 & -> & _); [|eauto].
    by apply (Qtrunc_bounds index 0 LookupTable.tableSize).
  - intros Hi. apply Hout. right.
    rewrite Qtrunc_nonneg_floor.
    + apply Qfloor_resp_le in Hi. by rewrite Qfloor_Z in Hi.
    + apply Qle_trans with (inject_Z LookupTable.tableSize); [done|done].
  - intros Hi. apply Hout. left. unfold Qtrunc.
    destruct (Qle_bool 0 index) eqn:E; [apply Qle_bool_iff in E; lra|].
    pose proof (Qceiling_lt index) as Hc.
    assert (Hc' : inject_Z (Qceiling index - 1) < inject_Z (-1)).
    { change (inject_Z (-1)) with (-1). lra. }
    rewrite <- Zlt_Qlt in Hc'. lia.
  - intros k Hk.
    assert (Ek : Qtrunc (inject_Z k) = k).
    { rewrite Qtrunc_nonneg_floor; [apply Qfloor_Z|].
      change 0 with (inject_Z 0). rewrite <- Zle_Qle. lia. }
    destruct (Hin (inject_Z k)) as (v0 & v1 & v2 & v3 & -> & Ev1);
      [by rewrite Ek|].
    rewrite Ek in Ev1 |- *. eexists _, v1. split; [done|]. split; [done|].
    unfold LookupTable.cubicInterpolate. cbn [fadd fsub fmul Q_SampleOps]. ring.
Qed.
End TableLookup.

Section TableOscillator.
Local Open Scope Q_scope.

Lemma performIn_loop_range (wrap_arg n : nat) (inb out : list Q) (k : nat)
    (phase freq_factor : Q) :
  (0 < wrap_arg)%nat -> 0 <= phase < Phasor.wrap wrap_arg -> 0 <= freq_factor ->
  (forall i x, inb !! i = Some x -> 0 <= x) ->
  (k + n <= length inb)%nat -> (k + n <= length out)%nat ->
  exists phase' out',
    Phasor.performIn_loop (sample_type := Q) wrap_arg n inb out k phase freq_factor
    = Ok (phase', out')
    /\ 0 <= phase' < Phasor.wrap wrap_arg
    /\ length out' = length out
    /\ (forall i, (i < k \/ k + n <= i)%nat -> out' !! i = out !! i)
    /\ (forall i s, (k <= i < k + n)%nat -> out' !! i = Some s ->
          0 <= s < Phasor.wrap wrap_arg).
Proof.
  intros Hw Hp Hff Hin. revert out k phase Hp.
  assert (Hwrap : 0 < Phasor.wrap (internal_type := Q) wrap_arg).
  { unfold Phasor.wrap. cbn [of_Z Q_SampleOps].
    change 0 with (inject_Z 0). rewrite <- Zlt_Qlt. lia. }
  induction n as [|n IH]; intros out k phase Hp Hki Hko;
    cbn [Phasor.performIn_loop].
  { exists phase, out. split; [done|]. split; [done|]. split; [done|].
    split; [done|]. intros i s Hi. lia. }
  destruct (lookup_lt_is_Some_2 inb k) as [x Ex]; [lia|].
  unfold load_at. rewrite Ex. cbn [mbind Outcome_bind]. cbv zeta.
  unfold Phasor.computeSample, Phasor.phasorComputeSample.
  cbn [fadd fmul fmod Q_SampleOps]. unfold static_cast, StaticCast_id.
  assert (Hstep : 0 <= Qfmod (phase + x * freq_factor) (Phasor.wrap wrap_arg)
                  < Phasor.wrap wrap_arg).
  { apply Qfmod_range; [|done].
    assert (0 <= x * freq_factor)
      by (apply Qmult_le_0_compat; [by eapply Hin|done]).
    lra. }
  set (phase1 := Qfmod _ _) in *.
  unfold store_at. rewrite decide_True by lia. cbn [mbind Outcome_bind].
  destruct (IH (<[k := phase1]> out) (S k) phase1 Hstep)
    as (phase' & out' & E & Hp' & Hlen & Hkeep & Hrange).
  { lia. }
  { rewrite length_insert. lia. }
  exists phase', out'. split; [exact E|]. split; [done|].
  split; [by rewrite Hlen, length_insert|]. split.
  - intros i Hi. rewrite Hkeep by lia. apply list_lookup_insert_ne. lia.
  - intros i s Hi Es. destruct (decide (i = k)) as [->|Hne].
    + rewrite Hkeep in Es by lia.
      rewrite list_lookup_insert_eq in Es by lia. by injection Es as <-.
    + apply (Hrange i s); [lia|done].
Qed.

Lemma table_index_range (x : Q) :
  0 <= x < 1 ->
  0 <= x * inject_Z LookupTable.tableSize / (2 * Qpi)
    < inject_Z LookupTable.tableSize.
Proof.
  intros [H0 H1]. unfold LookupTable.tableSize.
  assert (Hpi : 1 < 2 * Qpi) by reflexivity.
  change (inject_Z 2048) with 2048. split.
  - apply Qle_shift_div_l; lra.
  - apply Qlt_shift_div_r; [lra|].
    set (y := 2 * Qpi) in *.
    assert (x * 2048 < 1 * 2048) by (apply Qmult_lt_compat_r; [done|lra]).
    assert (2048 * 1 < 2048 * y) by (apply Qmult_lt_l; [done|lra]).
    lra.
Qed.

Lemma interpolate_in_table (table : list Q) (index : Q) :
  length table = Z.to_nat LookupTable.tableSize ->
  0 <= index < inject_Z LookupTable.tableSize ->
  exists v, LookupTable.interpolate table index = Ok v.
Proof.
  intros Hlen Hi.
  pose proof (Qtrunc_bounds index 0 LookupTable.tableSize Hi) as Hk.
  rewrite interpolate_reads
    by (done || unfold LookupTable.tableSize in Hk; lia).
  destruct (wrapped_index_in_range table (Qtrunc index - 1 + LookupTable.tableSize))
    as [v0 ->]; [done|].
  destruct (at_index_in_range table (Qtrunc index)) as (v1 & -> & Ev1);
    [rewrite Hlen; lia|].
  destruct (wrapped_index_in_range table (Qtrunc index + 1)) as [v2 ->]; [done|].
  destruct (wrapped_index_in_range table (Qtrunc index + 2)) as [v3 ->]; [done|].
  cbn. eauto.
Qed.

Lemma lookup_loop_runs count i (table phaseBuffer output : list Q) :
  length table = Z.to_nat LookupTable.tableSize ->
  (i + count <= length phaseBuffer)%nat -> (i + count <= length output)%nat ->
  (forall j s, (i <= j < i + count)%nat -> phaseBuffer !! j = Some s ->
     0 <= s < 1) ->
  exists output',
    LookupTable.lookup_loop count i table phaseBuffer output = Ok output'
    /\ length output' = length output
    /\ (forall j, (j < i \/ i + count <= j)%nat -> output' !! j = output !! j).
Proof.
  intros Htab. revert i output.
  induction count as [|count IH]; intros i output Hpb Hout Hrange;
    cbn [LookupTable.lookup_loop].
  { exists output. by repeat split. }
  destruct (lookup_lt_is_Some_2 phaseBuffer i) as [x Ex]; [lia|].
  unfold load_at. rewrite Ex. cbn [mbind Outcome_bind]. cbv zeta.
  destruct (interpolate_in_table table
              (x * of_Z LookupTable.tableSize / (of_Z 2 * piConstant))%S Htab)
    as [v Ev].
  { apply table_index_range. apply (Hrange i x); [lia|done]. }
  rewrite Ev. cbn [mbind Outcome_bind].
  unfold store_at. rewrite decide_True by lia. cbn [mbind Outcome_bind].
  destruct (IH (S i) (<[i := v]> output)) as (output' & E & Hlen & Hkeep).
  { lia. }
  { rewrite length_insert. lia. }
  { intros j s Hj. apply Hrange. lia. }
  exists output'. split; [exact E|]. split; [by rewrite Hlen, length_insert|].
  intros j Hj. rewrite Hkeep by lia. apply list_lookup_insert_ne. lia.
Qed.

(** X26: on exact rationals, [LookupTableOscillator::process] with a table
    of 2048 entries, a phase in [[0, 1)], a frequency factor and input
    samples that are not negative, and buffers of at least [numFrames]
    samples returns normally: every table read is inside the table.  It
    leaves the phase in [[0, 1)], keeps the table and the size of the
    output buffer, and writes nothing from index [numFrames] on. *)
Theorem table_oscillator_reads_inside_its_table
    (o : @LookupTable.t Q) (input output : list Q) (numFrames : nat) :
  length (LookupTable.m_sineTable o) = Z.to_nat LookupTable.tableSize ->
  0 <= Phasor.phase_ (LookupTable.m_phasor o) < 1 ->
  0 <= Phasor.freq_factor (LookupTable.m_phasor o) ->
  (forall i x, input !! i = Some x -> 0 <= x) ->
  (numFrames <= length input)%nat -> (numFrames <= length output)%nat ->
  exists o' output',
    LookupTable.process o input output numFrames = Ok (o', output')
    /\ LookupTable.m_sineTable o' = LookupTable.m_sineTable o
    /\ 0 <= Phasor.phase_ (LookupTable.m_phasor o') < 1
    /\ length output' = length output
    /\ drop numFrames output' = drop numFrames output.
Proof.
  intros Htab Hp Hff Hin Hni Hno. unfold LookupTable.process, Phasor.performIn.
  destruct (performIn_loop_range 1 numFrames input
              (replicate numFrames (of_Z 0)) 0
              (Phasor.phase_ (LookupTable.m_phasor o))
              (Phasor.freq_factor (LookupTable.m_phasor o)))
    as (phase' & pb & E & Hp' & Hlen & _ & Hrange);
    [lia|done|done|done|lia|by rewrite length_replicate|].
  rewrite length_replicate in Hlen.
  cbv zeta. rewrite E. cbn [mbind Outcome_bind].
  destruct (lookup_loop_runs numFrames 0 (LookupTable.m_sineTable o) pb output)
    as (output' & E' & Hlen' & Hkeep); [done|lia|lia| |].
  { intros j s Hj. by apply Hrange. }
  rewrite E'. cbn [mbind Outcome_bind].
  eexists _, output'. split; [done|]. cbn. split; [done|]. split; [done|].
  split; [done|]. apply list_eq. intros j. rewrite !lookup_drop.
  apply Hkeep. lia.
Qed.
End TableOscillator.

(** ** util::clamp *)

Section UtilClamp.
Local Open Scope Q_scope.

(** X27: on exact rationals, [util::clamp(value, min, max)], written as
    [std::max(min, std::min(value, max))], equals [std::clamp] and lies in
    [[min, max]] when [min <= max]; with the bounds the wrong way round it
    returns [min] for every value. *)
Theorem util_clamp_is_std_clamp_on_ordered_bounds (value min max : Q) :
  (min <= max ->
   util.clamp value min max == clamp value min max
   /\ min <= util.clamp value min max <= max)
  /\ (max < min -> util.clamp value min max = min).
Proof.
  unfold util.clamp, util.std_max, util.std_min, clamp. cbn [flt Q_SampleOps].
  split.
  - intros Hle.
    destruct (Qltb max value) eqn:E1;
      [apply Qltb_true in E1|apply Qltb_false in E1].
    + rewrite (proj2 (Qltb_false value min)) by lra.
      destruct (Qltb min max) eqn:E2;
        [apply Qltb_true in E2|apply Qltb_false in E2]; split; lra.
    + destruct (Qltb min value) eqn:E2;
        [apply Qltb_true in E2|apply Qltb_false in E2].
      * rewrite (proj2 (Qltb_false value min)) by lra. split; lra.
      * destruct (Qltb value min) eqn:E3;
          [apply Qltb_true in E3|apply Qltb_false in E3]; split; lra.
  - intros Hlt.
    destruct (Qltb max value) eqn:E1;
      [apply Qltb_true in E1|apply Qltb_false in E1].
    + by rewrite (proj2 (Qltb_false min max)) by lra.
    + by rewrite (proj2 (Qltb_false min value)) by lra.
Qed.
End UtilClamp.

(** ** The further properties at concrete inputs *)

Section FurtherInstances.
Import ModularSystem Examples.
Local Open Scope Q_scope.

Lemma perform_phase_trajectory_witness :
  exists (p' : @Phasor.t Q) (out' : list Q),
    Phasor.perform 1 quarterPhasor [9; 9; 9; 9] 3 = Ok (p', out')
    /\ 0 <= Phasor.phase_ p' < Phasor.wrap 1
    /\ (exists k : Z,
          (0 <= k)%Z
          /\ Phasor.phase_ p'
             == Phasor.phase_ quarterPhasor
                + inject_Z (Z.of_nat 3) * Phasor.phase_inc_ quarterPhasor
                - inject_Z k * Phasor.wrap 1)
    /\ length out' = length [9; 9; 9; 9]
    /\ (forall i s, (i < 3)%nat -> out' !! i = Some s -> 0 <= s < Phasor.wrap 1)
    /\ drop 3 out' = drop 3 [9; 9; 9; 9].
Proof.
  refine (perform_phase_trajectory 1 quarterPhasor [9; 9; 9; 9] 3 _ _ _ _).
  - lia.
  - split; [vm_compute; discriminate | reflexivity].
  - vm_compute. discriminate.
  - cbn. lia.
Defined.

Lemma setParameter_then_getParameter_witness :
  Oscillator.getParameter (Oscillator.mk 220 (1 # 2) 3) "phase" = Ok 3
  /\ forall name' : string, name' <> "phase" ->
       Oscillator.getParameter (Oscillator.mk 220 (1 # 2) 3) name'
       = Oscillator.getParameter tuned name'.
Proof.
  refine (setParameter_then_getParameter false tuned "phase" 3
            (Oscillator.mk 220 (1 # 2) 3) _).
  reflexivity.
Defined.

Lemma Oscillator_process_writes_only_its_output_witness :
  exists o' st',
    Oscillator.process Oscillator.sawWave 48000 tuned [None; None] [0%nat] 2
      [[0; 0]; [7; 7]]
    = Ok (o', st')
    /\ Graph.shaped 2 2 st'
    /\ (forall q : ptr, q <> 0%nat -> st' !! q = [[0; 0]; [7; 7]] !! q)
    /\ Oscillator.m_frequency o' = Oscillator.m_frequency tuned
    /\ Oscillator.m_amplitude o' = Oscillator.m_amplitude tuned.
Proof.
  refine (Oscillator_process_writes_only_its_output 2 2 Oscillator.sawWave
            48000 tuned [None; None] 0%nat [] [[0; 0]; [7; 7]] _ _ _).
  - split; [reflexivity|]. by repeat constructor.
  - lia.
  - unfold Graph.bound.
    repeat (apply Forall_cons_2; [by intros p [=]|]). apply Forall_nil_2.
Defined.

Lemma processScalar_phase_over_a_block_witness :
  exists st' phase',
    Oscillator.processScalar Oscillator.sawWave [[0; 0]] 0%nat None None
      1 220 (1 # 2) 48000 2
    = Ok (st', phase')
    /\ 0 <= phase' < twoPiConstant
    /\ exists j : Z, (0 <= j <= Z.of_nat 2)%Z
         /\ phase'
            == 1 + inject_Z (Z.of_nat 2) * (220 * twoPiConstant / 48000)
               - inject_Z j * twoPiConstant.
Proof.
  refine (processScalar_phase_over_a_block 1 2 Oscillator.sawWave 0%nat
            [[0; 0]] 1 220 (1 # 2) 48000 _ _ _ _).
  - split; [reflexivity|]. by repeat constructor.
  - lia.
  - split; [vm_compute; discriminate | reflexivity].
  - split; [vm_compute; discriminate | reflexivity].
Defined.

Lemma getCurrentValue_within_amplitude_witness :
  - Oscillator.m_amplitude tuned
    <= Oscillator.getCurrentValue Oscillator.sawWave tuned
    <= Oscillator.m_amplitude tuned
  /\ - Oscillator.m_amplitude tuned
       <= Oscillator.getCurrentValue Oscillator.triangleWave tuned
       <= Oscillator.m_amplitude tuned
  /\ (Oscillator.getCurrentValue Oscillator.pulseWave tuned
      == (if Qle_bool Qpi (Oscillator.m_phase tuned)
          then - Oscillator.m_amplitude tuned else Oscillator.m_amplitude tuned)).
Proof.
  refine (getCurrentValue_within_amplitude tuned _ _).
  - split; [vm_compute; discriminate | reflexivity].
  - vm_compute. discriminate.
Defined.

Lemma polyBlep_range_witness :
  -1 <= Oscillator.polyBlep (1 # 10) (1 # 4) < 1
  /\ ((1 # 10) < (1 # 4) -> Oscillator.polyBlep (1 # 10) (1 # 4) < 0)
  /\ ((1 # 4) <= (1 # 10) -> 0 <= Oscillator.polyBlep (1 # 10) (1 # 4))
  /\ ((1 # 10) == 0 -> Oscillator.polyBlep (1 # 10) (1 # 4) == -1).
Proof.
  refine (polyBlep_range (1 # 10) (1 # 4) _ _).
  - split; [vm_compute; discriminate | reflexivity].
  - reflexivity.
Defined.

Lemma polyBlepSIMD_is_polyBlep_on_each_lane_witness :
  AntiAliased.polyBlepSIMD [1 # 10; 1 # 2] [1 # 4; 1 # 4]
  = Ok (zip_with Oscillator.polyBlep [1 # 10; 1 # 2] [1 # 4; 1 # 4]).
Proof.
  refine (polyBlepSIMD_is_polyBlep_on_each_lane (sample_type := Q)
            [1 # 10; 1 # 2] [1 # 4; 1 # 4] _).
  reflexivity.
Defined.

Lemma anti_aliased_saw_value_witness :
  AntiAliased.sawCurrentValue 48000 tuned
  == Oscillator.getCurrentValue Oscillator.sawWave tuned
  /\ AntiAliased.sawCurrentValue 48000 (Oscillator.reset tuned) == 0.
Proof.
  destruct (anti_aliased_saw_value 48000 tuned) as (Hmid & Hreset & _).
  - reflexivity.
  - reflexivity.
  - split; [|exact Hreset]. apply Hmid.
    split; vm_compute; discriminate.
Defined.

Lemma anti_aliased_pulse_value_witness :
  AntiAliased.pulseCurrentValue 48000
    (PulseOsc.mk (Oscillator.mk 220 (1 # 2) 1) (1 # 2))
  == 1 # 2.
Proof.
  refine (proj1 (anti_aliased_pulse_value 48000 220 (1 # 2) 1 (1 # 2) _ _) _).
  - reflexivity.
  - split; vm_compute; discriminate.
  - split; vm_compute; discriminate.
Defined.

Lemma GainModule_process_scales_its_input_witness :
  GainModule.process (GainModule.mk 2) [Some 0%nat] [1%nat] 2
    [[3; 4; 5]; [9; 9; 9]]
  = Ok (GainModule.mk 2,
        <[1%nat := ((fun x => (x * GainModule.m_gain (GainModule.mk 2))%S)
                      <$> take 2 [3; 4; 5]) ++ drop 2 [9; 9; 9]]>
          [[3; 4; 5]; [9; 9; 9]]).
Proof.
  refine (GainModule_process_scales_its_input (GainModule.mk 2) 0%nat 1%nat
            [] [] 2 [[3; 4; 5]; [9; 9; 9]] [3; 4; 5] [9; 9; 9] _ _ _ _ _ _).
  - lia.
  - reflexivity.
  - reflexivity.
  - reflexivity.
  - cbn. lia.
  - cbn. lia.
Defined.

Lemma gain_hears_its_producer_in_table_order_witness :
  (exists m' out,
     process (H0 := node_ugen)
       {| m_modules := [("a", constant (1 # 2)); ("b", Node.Gain (GainModule.mk 2))];
          m_connections := [mkConnection "a" 0 "b" 0];
          m_audioBuffers := [] |} 2
     = Ok {| m_modules := [("a", m'); ("b", Node.Gain (GainModule.mk 2))];
             m_connections := [mkConnection "a" 0 "b" 0];
             m_audioBuffers :=
               [out; (fun x => (x * GainModule.m_gain (GainModule.mk 2))%S)
                       <$> out] |}
     /\ length out = 2%nat)
  /\ (exists m' out,
        process (H0 := node_ugen)
          {| m_modules := [("b", Node.Gain (GainModule.mk 2)); ("a", constant (1 # 2))];
             m_connections := [mkConnection "a" 0 "b" 0];
             m_audioBuffers := [] |} 2
        = Ok {| m_modules := [("b", Node.Gain (GainModule.mk 2)); ("a", m')];
                m_connections := [mkConnection "a" 0 "b" 0];
                m_audioBuffers :=
                  [(fun x => (x * GainModule.m_gain (GainModule.mk 2))%S)
                     <$> resize 2 (of_Z 0) (default [] ([] !! 1%nat));
                   out] |}
        /\ length out = 2%nat).
Proof.
  refine (gain_hears_its_producer_in_table_order false 48000 "a" "b"
            (constant (1 # 2)) (GainModule.mk 2) 0 2 [] _ _ _).
  - discriminate.
  - intros g'. discriminate.
  - reflexivity.
Defined.

Lemma disconnect_erases_the_earliest_copy_witness :
  m_connections (disconnect fanIn "a" 0 "c" 0) = [] ++ [mkConnection "b" 0 "c" 0]
  /\ m_modules (disconnect fanIn "a" 0 "c" 0) = m_modules fanIn
  /\ (length (m_connections (disconnect fanIn "a" 0 "c" 0)) + 1
      = length (m_connections fanIn))%nat.
Proof.
  refine (disconnect_erases_the_earliest_copy fanIn "a" 0 "c" 0 []
            [mkConnection "b" 0 "c" 0] _ _).
  - reflexivity.
  - apply not_elem_of_nil.
Defined.

Lemma interpolate_reads_inside_the_table_witness :
  (exists v, LookupTable.interpolate (replicate 2048 (1 # 3)) (5 # 2) = Ok v)
  /\ LookupTable.interpolate (replicate 2048 (1 # 3)) 2048 = Undefined
  /\ LookupTable.interpolate (replicate 2048 (1 # 3)) (-1) = Undefined.
Proof.
  destruct (interpolate_reads_inside_the_table (replicate 2048 (1 # 3)) (5 # 2))
    as (Hin & _); [reflexivity|].
  destruct (interpolate_reads_inside_the_table (replicate 2048 (1 # 3)) 2048)
    as (_ & Hhigh & _); [reflexivity|].
  destruct (interpolate_reads_inside_the_table (replicate 2048 (1 # 3)) (-1))
    as (_ & _ & Hlow & _); [reflexivity|].
  split; [|split].
  - apply Hin. split; [vm_compute; discriminate | reflexivity].
  - apply Hhigh. vm_compute. discriminate.
  - apply Hlow. vm_compute. discriminate.
Defined.

Lemma table_oscillator_reads_inside_its_table_witness :
  exists o' output',
    LookupTable.process
      (LookupTable.mk quarterPhasor (replicate 2048 (1 # 3))) [1; 1] [9; 9; 9] 2
    = Ok (o', output')
    /\ LookupTable.m_sineTable o' = replicate 2048 (1 # 3)
    /\ 0 <= Phasor.phase_ (LookupTable.m_phasor o') < 1
    /\ length output' = length [9; 9; 9]
    /\ drop 2 output' = drop 2 [9; 9; 9].
Proof.
  refine (table_oscillator_reads_inside_its_table
            (LookupTable.mk quarterPhasor (replicate 2048 (1 # 3)))
            [1; 1] [9; 9; 9] 2 _ _ _ _ _ _).
  - reflexivity.
  - split; [vm_compute; discriminate | reflexivity].
  - vm_compute. discriminate.
  - intros [|[|i]] x [=]; subst; vm_compute; discriminate.
  - cbn. lia.
  - cbn. lia.
Defined.
Lemma wiring_stays_consistent_witness :
  Wiring.consistent (disconnect fanIn "a" 0 "c" 0)
  /\ (forall s', connect fanIn "a" 0 "b" 3 = Ok s' -> Wiring.consistent s')
  /\ (forall s', removeModule fanIn "a" = Ok s' -> Wiring.consistent s').
Proof.
  destruct (proj2 (wiring_stays_consistent fanIn "a" gain "a" 0 "b" 3))
    as (_ & Hremove & Hconnect & _).
  { split.
    - by apply (bool_decide_unpack (NoDup (names fanIn))).
    - intros c Hc. cbn in Hc.
      apply elem_of_cons in Hc as [->|Hc]; [split; cbn; rewrite !elem_of_cons; auto|].
      apply elem_of_cons in Hc as [->|Hc]; [split; cbn; rewrite !elem_of_cons; auto|].
      by apply elem_of_nil in Hc. }
  destruct (proj2 (wiring_stays_consistent fanIn "a" gain "a" 0 "c" 0))
    as (_ & _ & _ & Hdisconnect & _).
  { split.
    - by apply (bool_decide_unpack (NoDup (names fanIn))).
    - intros c Hc. cbn in Hc.
      apply elem_of_cons in Hc as [->|Hc]; [split; cbn; rewrite !elem_of_cons; auto|].
      apply elem_of_cons in Hc as [->|Hc]; [split; cbn; rewrite !elem_of_cons; auto|].
      by apply elem_of_nil in Hc. }
  split; [exact Hdisconnect|]. split; [exact Hconnect | exact Hremove].
Defined.
End FurtherInstances.
